(** * wsb-analyst: ticker extraction, mention ranking and recommendation synthesis

    A shallow embedding of the core of the repository:

    - [api/trending.js] and [src/api.js]: the [FALSE_POSITIVES] lexicon, the two
      ticker regular expressions, [extractTickers], the mention aggregation with
      its weighted score, and the edge [handler];
    - [src/App.jsx]: [runAnalysis], i.e. the composite score, the signal bands,
      the thesis, bull/bear cases and risk flags, and the per-ticker loop.

    Conventions.
    - JavaScript strings are [string]s (a non-ASCII character is a run of bytes
      above 127, none of which is a word character, [$] or a capital letter, so
      the two regular expressions see it exactly as they see a UTF-16 unit).
    - JavaScript numbers are exact rationals [Q]; the literals [0.35], [0.01]...
      are the decimal fractions they denote.  Rounding of intermediate IEEE
      results is not part of this model.  JSON cannot carry NaN or infinities.
    - A field that is [null] or missing is [None].
    - [try]/[catch] is an error monad ([outcome]); React state and the console
      are threaded explicitly. *)

From Stdlib Require Import ZArith QArith Qround Qabs Lqa String Ascii List Lia DecimalString
  Sorted.
From stdpp Require Import gmap strings list.

Local Open Scope string_scope.
Local Open Scope Z_scope.

(** ** Regular expressions of the two ticker patterns

    A backtracking matcher in continuation-passing style for the fragment of
    ECMAScript regular expressions that the source uses: literal characters,
    character ranges, greedy bounded repetition, capturing groups and the
    word-boundary assertion; the anchors serve to state the shape of a
    ticker. *)
Module Regex.

Inductive re : Type :=
| Chr (c : ascii)                 (* an escaped literal such as \$ *)
| Range (lo hi : ascii)           (* a class such as [A-Z] *)
| Rep (lo hi : nat) (r : re)      (* r{lo,hi}, greedy *)
| Grp (r : re)                    (* the capturing group, m[1] *)
| WordB                           (* \b *)
| Bol                             (* ^ *)
| Eol                             (* $ *)
| Cat (r1 r2 : re).

(** The matcher's position: the character just before the cursor (for \b),
    the text still to read, and the capture of the group. *)
Record mstate : Type := MState {
  prev : option ascii;
  rest : list ascii;
  cap : option (list ascii)
}.

Definition cont : Type := mstate -> option mstate.

Definition in_range (lo hi a : ascii) : bool :=
  (nat_of_ascii lo <=? nat_of_ascii a)%nat && (nat_of_ascii a <=? nat_of_ascii hi)%nat.

Definition is_upper (a : ascii) : bool := in_range "A" "Z" a.

(** \w without the i and u flags: [A-Za-z0-9_]. *)
Definition is_word (a : ascii) : bool :=
  in_range "A" "Z" a || in_range "a" "z" a || in_range "0" "9" a || Ascii.eqb a "_".

Definition word_opt (o : option ascii) : bool :=
  match o with Some a => is_word a | None => false end.

Definition at_boundary (s : mstate) : bool :=
  xorb (word_opt (prev s)) (word_opt (head (rest s))).

Definition eat (s : mstate) (ok : ascii -> bool) (k : cont) : option mstate :=
  match rest s with
  | a :: t => if ok a then k (MState (Some a) t (cap s)) else None
  | [] => None
  end.

(** Greedy repetition: try one more iteration first, fall back to stopping
    here once the lower bound is met. *)
Fixpoint rep (once : cont -> cont) (lo hi : nat) (k : cont) (s : mstate)
  : option mstate :=
  match hi with
  | O => if (lo =? 0)%nat then k s else None
  | S hi' =>
      match once (rep once (Nat.pred lo) hi' k) s with
      | Some s' => Some s'
      | None => if (lo =? 0)%nat then k s else None
      end
  end.

Definition consumed (s s' : mstate) : list ascii :=
  firstn (length (rest s) - length (rest s')) (rest s).

Fixpoint run (r : re) (k : cont) (s : mstate) {struct r} : option mstate :=
  match r with
  | Chr c => eat s (Ascii.eqb c) k
  | Range lo hi => eat s (in_range lo hi) k
  | Rep lo hi r1 => rep (run r1) lo hi k s
  | Grp r1 =>
      run r1 (fun s' => k (MState (prev s') (rest s') (Some (consumed s s')))) s
  | WordB => if at_boundary s then k s else None
  | Bol => match prev s with None => k s | Some _ => None end
  | Eol => match rest s with [] => k s | _ :: _ => None end
  | Cat r1 r2 => run r1 (run r2 k) s
  end.

(** One attempt of the pattern at the cursor ([RegExp.prototype.exec] with a
    sticky position). *)
Definition exec_at (r : re) (s : mstate) : option mstate :=
  run r Some (MState (prev s) (rest s) None).

Definition step_over (s : mstate) : option mstate :=
  match rest s with
  | a :: t => Some (MState (Some a) t None)
  | [] => None
  end.

(** m[1] of a match. *)
Definition group1 (m : mstate) : string :=
  match cap m with
  | Some w => string_of_list_ascii w
  | None => EmptyString
  end.

(** [text.matchAll(r)] for a global pattern, as the list of m[1]: after a
    match the search resumes where the match ended (one further when the
    match was empty), otherwise one character on. *)
Fixpoint scan (fuel : nat) (r : re) (s : mstate) : list string :=
  match fuel with
  | O => []
  | S fuel' =>
      match exec_at r s with
      | Some m =>
          group1 m ::
          (if (length (rest m) <? length (rest s))%nat then scan fuel' r m
           else match step_over s with
                | Some s' => scan fuel' r s'
                | None => []
                end)
      | None =>
          match step_over s with
          | Some s' => scan fuel' r s'
          | None => []
          end
      end
  end.

Definition matchAll (r : re) (text : string) : list string :=
  let l := list_ascii_of_string text in
  scan (S (length l)) r (MState None l None).

(** [r.test(text)] for a pattern without flags: the first position at
    which the pattern matches, if any. *)
Fixpoint search (fuel : nat) (r : re) (s : mstate) : option mstate :=
  match fuel with
  | O => None
  | S fuel' =>
      match exec_at r s with
      | Some m => Some m
      | None =>
          match step_over s with
          | Some s' => search fuel' r s'
          | None => None
          end
      end
  end.

Definition test (r : re) (text : string) : bool :=
  let l := list_ascii_of_string text in
  match search (S (length l)) r (MState None l None) with
  | Some _ => true
  | None => false
  end.

(** Where the matcher stands once it has read [w] and is left with [t]. *)
Definition after (w t : list ascii) (s : mstate) : mstate :=
  MState (fold_left (fun _ c => Some c) w (prev s)) t (cap s).

End Regex.

Import Regex.

(** ** The lexicon (api/trending.js and src/api.js carry the same list) *)

Definition FALSE_POSITIVES_words : list string := [
  "I"; "A"; "AM"; "AN"; "AT"; "BE"; "BY"; "DO"; "GO"; "IF"; "IN"; "IS";
  "IT"; "ME"; "MY"; "NO"; "OF"; "OK"; "ON"; "OR"; "SO"; "TO"; "UP"; "US";
  "WE"; "CEO"; "CFO"; "CTO"; "COO"; "IPO"; "ETF"; "SEC"; "FDA"; "FED";
  "GDP"; "ATH"; "DD"; "DFV"; "EPS"; "EOD"; "ERR"; "EST"; "FOR"; "FYI";
  "GG"; "HQ"; "IMO"; "LOL"; "NYC"; "OTC"; "PDT"; "PE"; "PM"; "PT";
  "RH"; "SP"; "TD"; "UK"; "USA"; "WSB"; "YOLO"; "FOMO"; "HODL"; "MOON";
  "APE"; "APR"; "MAY"; "JUN"; "JUL"; "AUG"; "SEP"; "OCT"; "NOV"; "DEC";
  "JAN"; "FEB"; "MAR"; "MON"; "TUE"; "WED"; "THU"; "FRI"; "SAT"; "SUN";
  "THE"; "AND"; "BUT"; "NOT"; "ALL"; "ANY"; "ARE"; "CAN"; "DAY"; "DID";
  "GET"; "GOT"; "HAS"; "HAD"; "HER"; "HIM"; "HIS"; "HOW"; "ITS"; "LET";
  "MAD"; "MAN"; "MEN"; "NEW"; "NOW"; "OLD"; "ONE"; "OUR"; "OUT"; "OWN";
  "PUT"; "RAN"; "RED"; "RUN"; "SAW"; "SAY"; "SHE"; "THE"; "TOO"; "TOP";
  "TRY"; "TWO"; "WAR"; "WAS"; "WAY"; "WHO"; "WHY"; "WIN"; "WON"; "YET";
  "YOU"; "BIG"; "LOW"; "HIGH"; "CALL"; "PUTS"; "LONG"; "SHORT"; "BULL";
  "BEAR"; "HOLD"; "SELL"; "BUY"; "GAIN"; "LOSS"; "PUMP"; "DUMP"; "CASH";
  "DEBT"; "RISK"; "SAFE"; "EDIT"; "TLDR"; "OP"; "LMAO"; "ROPE"; "RIP";
  "BANG"; "OG"; "AI"; "EV"; "GOOD"; "BAD"; "BEST"; "LIKE"; "JUST"; "EVEN";
  "OVER"; "MOST"; "MUCH"; "NEXT"; "ONLY"; "VERY"; "WELL"; "ALSO"; "BACK";
  "BEEN"; "COME"; "DOWN"; "EACH"; "FIND"; "GIVE"; "HAVE"; "HERE"; "KEEP";
  "LAST"; "LOOK"; "MADE"; "MAKE"; "MANY"; "MORE"; "MOVE"; "MUST"; "NAME";
  "NEED"; "OPEN"; "PART"; "PLAY"; "REAL"; "SAID"; "SAME"; "SOME"; "SURE";
  "TAKE"; "TELL"; "THAN"; "THAT"; "THEM"; "THEN"; "THEY"; "THIS"; "TIME";
  "TURN"; "WANT"; "WEEK"; "WENT"; "WERE"; "WHAT"; "WHEN"; "WILL"; "WITH";
  "WORK"; "YEAR"; "YOUR"; "FREE"; "HUGE"; "HARD"; "ZERO"; "LMFAO";
  "COST"; "FROM"; "DOES"; "DONE"; "FULL"; "HALF"; "HELP"; "HOME"; "INTO";
  "LEFT"; "LESS"; "LIFE"; "LINE"; "LIST"; "LIVE"; "LONG"; "LOST"; "MARK";
  "MISS"; "OWE"; "PAYS"; "POST"; "REST"; "RICH"; "RISE"; "SAVE"; "SIDE";
  "SIZE"; "STOP"; "TALK"; "TERM"; "THEM"; "TILL"; "TRUE"; "TYPE"; "USED";
  "WAIT"; "WAKE"; "WALL"; "WISH"; "WORD"; "YALL"; "HOLY"; "SHIT"
].

Definition FALSE_POSITIVES : gset string :=
  Eval vm_compute in list_to_set FALSE_POSITIVES_words.
#[global] Typeclasses Opaque FALSE_POSITIVES.
#[global] Opaque FALSE_POSITIVES.

Definition in_lexicon (w : string) : bool := bool_decide (w ∈ FALSE_POSITIVES).
Arguments in_lexicon : simpl never.

(** ** Ticker extraction ([extractTickers], the same in both files) *)

(** /\$([A-Z]{1,5})\b/g *)
Definition TICKER_RE : re :=
  Cat (Chr "$") (Cat (Grp (Rep 1 5 (Range "A" "Z"))) WordB).

(** /\b([A-Z]{2,5})\b/g *)
Definition BARE_TICKER_RE : re :=
  Cat WordB (Cat (Grp (Rep 2 5 (Range "A" "Z"))) WordB).

(** /^[A-Z]{1,5}$/, the shape of a ticker in the specification *)
Definition TICKER_SHAPE_RE : re :=
  Cat Bol (Cat (Rep 1 5 (Range "A" "Z")) Eol).

(** The shape of a ticker, spelled out. *)
Definition ticker_shape (w : string) : Prop :=
  (1 <= length (list_ascii_of_string w) <= 5)%nat
  /\ forallb is_upper (list_ascii_of_string w) = true.

(** [Set.prototype.add]: insertion order is kept, a present value is not
    added again. *)
Definition set_add (w : string) (s : list string) : list string :=
  if existsb (String.eqb w) s then s else s ++ [w].

Definition keep (tickers : list string) (w : string) : list string :=
  if in_lexicon w then tickers else set_add w tickers.

Definition extractTickers (text : string) : list string :=
  let tickers := [] in
  let tickers := fold_left keep (matchAll TICKER_RE text) tickers in
  let tickers := fold_left keep (matchAll BARE_TICKER_RE text) tickers in
  tickers.

(** ** Exceptions and decimal printing *)

(** The result of an expression that may throw; [Threw] carries [e.message]. *)
Inductive outcome (A : Type) : Type :=
| Returned (a : A)
| Threw (msg : string).
Arguments Returned {A} a.
Arguments Threw {A} msg.

#[global] Instance outcome_bind : MBind outcome :=
  fun A B (f : A -> outcome B) (x : outcome A) =>
    match x with
    | Returned a => f a
    | Threw msg => Threw msg
    end.

(** [try { body } catch (e) { handler(e.message) }] *)
Definition try_catch {A : Type} (body : outcome A) (handler : string -> A) : A :=
  match body with
  | Returned a => a
  | Threw msg => handler msg
  end.

(** An integer inside a template literal. *)
Definition show_Z (z : Z) : string := NilZero.string_of_int (Z.to_int z).
Definition show_nat (n : nat) : string := NilZero.string_of_uint (Nat.to_uint n).

(** ** Mention aggregation (api/trending.js [handler], src/api.js [fetchTrending]) *)

(** [child.data] of a listing entry.  [stickied] missing counts as [false]. *)
Record Post : Type := {
  title : option string;
  selftext : option string;
  score : option Z;
  num_comments : option Z;
  stickied : bool
}.

Record Mention : Type := {
  ticker : string;
  mention_count : Z;
  total_score : Z;
  total_comments : Z
}.

(** An entry of the ranked list: [{ ...t, weighted_score }]. *)
Record Ranked : Type := {
  mention : Mention;
  weighted_score : Q
}.

(** [s || ''] and [n || 0]. *)
Definition str_or_empty (o : option string) : string :=
  match o with Some s => s | None => "" end.
Definition num_or_zero (o : option Z) : Z :=
  match o with Some n => n | None => 0 end.

(** The [mentions] object: string keys in insertion order. *)
Definition mentions_t : Type := list (string * Mention).

Fixpoint get (k : string) (m : mentions_t) : option Mention :=
  match m with
  | [] => None
  | (k', v) :: m' => if String.eqb k k' then Some v else get k m'
  end.

Fixpoint update (k : string) (f : Mention -> Mention) (m : mentions_t) : mentions_t :=
  match m with
  | [] => []
  | (k', v) :: m' =>
      if String.eqb k k' then (k', f v) :: m' else (k', v) :: update k f m'
  end.

Definition count_post (post : Post) (t : Mention) : Mention :=
  {| ticker := ticker t;
     mention_count := mention_count t + 1;
     total_score := total_score t + num_or_zero (score post);
     total_comments := total_comments t + num_or_zero (num_comments post) |}.

(** [{ ticker, mention_count: 0, total_score: 0, total_comments: 0 }] *)
Definition fresh (tk : string) : Mention :=
  {| ticker := tk; mention_count := 0; total_score := 0; total_comments := 0 |}.

(** The body of [for (const ticker of tickers)]. *)
Definition bump (post : Post) (mentions : mentions_t) (tk : string) : mentions_t :=
  let mentions :=
    match get tk mentions with
    | Some _ => mentions
    | None => (mentions ++ [(tk, fresh tk)])%list
    end in
  update tk (count_post post) mentions.

(** The body of [for (const child of children)]; [None] is a child without
    [data]. *)
Definition visit (mentions : mentions_t) (child : option Post) : mentions_t :=
  match child with
  | None => mentions
  | Some post =>
      if stickied post then mentions
      else
        let text := str_or_empty (title post) ++ " " ++ str_or_empty (selftext post) in
        let tickers := extractTickers text in
        fold_left (bump post) tickers mentions
  end.

Definition aggregate (children : list (option Post)) : mentions_t :=
  fold_left visit children [].

Definition weigh (t : Mention) : Ranked :=
  {| mention := t;
     weighted_score :=
       (inject_Z (mention_count t) * 3 + inject_Z (total_score t) * 0.01
        + inject_Z (total_comments t) * 0.05)%Q |}.

(** [Array.prototype.sort] with a comparator [(a, b) => key b - key a]: a
    stable sort by descending key.  [le y x] is [key y <= key x]; an element
    is inserted in front of the first one whose key is not above its own, so
    equal keys keep their order. *)
Fixpoint insert_desc {A : Type} (le : A -> A -> bool) (x : A) (l : list A) : list A :=
  match l with
  | [] => [x]
  | y :: l' => if le y x then x :: l else y :: insert_desc le x l'
  end.

Definition sort_desc {A : Type} (le : A -> A -> bool) (l : list A) : list A :=
  fold_right (insert_desc le) [] l.

Definition by_weighted_score (a b : Ranked) : bool :=
  Qle_bool (weighted_score a) (weighted_score b).

(** [Object.values(mentions).map(...).sort(...).slice(0, 20)] *)
Definition rank (mentions : mentions_t) : list Ranked :=
  firstn 20 (sort_desc by_weighted_score (map weigh (map snd mentions))).

(** What the Reddit listing can look like once parsed:
    [data?.data?.children || []] is falsy, or a truthy value that cannot be
    iterated, or an array. *)
Inductive children_field : Type :=
| NoChildren
| NotIterable
| Children (l : list (option Post)).

Definition iterate (c : children_field) : outcome (list (option Post)) :=
  match c with
  | NoChildren => Returned []
  | NotIterable => Threw "children is not iterable"
  | Children l => Returned l
  end.

(** The upstream reply: [resp.ok], [resp.status] and [await resp.json()]. *)
Record reply : Type := {
  ok : bool;
  status : Z;
  json : outcome children_field
}.

(** The edge function's [Response]: status and the stringified body
    [{ tickers, error? }]. *)
Record response : Type := {
  resp_status : Z;
  resp_tickers : list Ranked;
  resp_error : option string
}.

(** api/trending.js [handler]; [net] is the result of [await fetch(...)]. *)
Definition handler_try (net : outcome reply) : outcome response :=
  resp ← net;
  if negb (ok resp) then
    Returned {| resp_status := 200; resp_tickers := [];
                resp_error := Some ("Reddit returned " ++ show_Z (status resp)) |}
  else
    data ← json resp;
    children ← iterate data;
    Returned {| resp_status := 200; resp_tickers := rank (aggregate children);
                resp_error := None |}.

Definition handler (net : outcome reply) : response :=
  try_catch (handler_try net)
    (fun msg => {| resp_status := 200; resp_tickers := []; resp_error := Some msg |}).

(** src/api.js [fetchTrending]; [net] is the result of [fetchWithTimeout]. *)
Definition fetchTrending (net : outcome reply) : outcome (list Ranked) :=
  res ← net;
  if negb (ok res) then Threw "Reddit returned an error — try again in a moment"
  else
    data ← json res;
    children ← iterate data;
    Returned (rank (aggregate children)).

(** ** Numbers of src/App.jsx *)

Definition Qltb (a b : Q) : bool := negb (Qle_bool b a).

(** [Math.round]: the nearest integer, a tie going up. *)
Definition Math_round (x : Q) : Z := Qfloor (x + (1 # 2)).

(** A JavaScript value read from a numeric field is falsy when it is [null],
    missing or zero. *)
Definition truthy (x : option Q) : bool :=
  match x with
  | Some q => negb (Qeq_bool q 0)
  | None => false
  end.

(** [x || d] *)
Definition or_default (x : option Q) (d : Q) : Q :=
  match x with
  | Some q => if Qeq_bool q 0 then d else q
  | None => d
  end.

(** [x && x > c] and [x && x < c] used as a condition *)
Definition and_gt (x : option Q) (c : Q) : bool :=
  match x with
  | Some q => negb (Qeq_bool q 0) && Qltb c q
  | None => false
  end.

Definition and_lt (x : option Q) (c : Q) : bool :=
  match x with
  | Some q => negb (Qeq_bool q 0) && Qltb q c
  | None => false
  end.

Fixpoint zeros (k : nat) : string :=
  match k with
  | O => ""
  | S k' => String "0" (zeros k')
  end.

(** [Array.prototype.push] and [Array.prototype.join] *)
Definition push (l : list string) (x : string) : list string := (l ++ [x])%list.
Definition join (sep : string) (l : list string) : string := String.concat sep l.

(** [a || fallback] on strings: the empty string is falsy. *)
Definition str_or (a fallback : string) : string :=
  if String.eqb a "" then fallback else a.

(** ** Recommendation synthesis and the per-ticker loop (src/App.jsx) *)

Record Fundamental : Type := {
  f_score : option Q;
  trailing_pe : option Q;
  revenue_growth_yoy : option Q;
  debt_to_equity : option Q;
  dcf_upside_pct : option Q
}.

Record Technical : Type := {
  t_score : option Q;
  trend_signal : option string
}.

Record Risk : Type := {
  r_score : option Q;
  sharpe_ratio : option Q;
  volatility_annual : option Q;
  max_drawdown : option Q
}.

(** The reply of [/api/stock/<ticker>].  [info] and [price_history] are
    copied into the recommendation untouched and are left out. *)
Record Detail : Type := {
  fundamental : option Fundamental;
  technical : option Technical;
  risk : option Risk
}.

(** [{}] *)
Definition no_fundamental : Fundamental :=
  {| f_score := None; trailing_pe := None; revenue_growth_yoy := None;
     debt_to_equity := None; dcf_upside_pct := None |}.
Definition no_technical : Technical := {| t_score := None; trend_signal := None |}.
Definition no_risk : Risk :=
  {| r_score := None; sharpe_ratio := None; volatility_annual := None;
     max_drawdown := None |}.

Inductive Signal : Type := strong_sell | sell | hold | buy | strong_buy.

Record Rec : Type := {
  rec_ticker : string;
  signal : Signal;
  rec_score : Z;
  investment_thesis : string;
  bull_case : string;
  bear_case : string;
  risk_flags : list string;
  rec_fundamental : Fundamental;
  rec_technical : Technical;
  rec_risk : Risk;
  wsb_mention_rank : Z
}.

Definition composite (f : Fundamental) (t : Technical) (r : Risk) : Z :=
  Math_round
    (or_default (f_score f) 50 * 0.35 +
     or_default (t_score t) 50 * 0.25 +
     or_default (r_score r) 50 * 0.20 +
     50 * 0.20)%Q.

Definition signal_of (composite : Z) : Signal :=
  if composite >=? 75 then strong_buy
  else if composite >=? 60 then buy
  else if composite <=? 25 then strong_sell
  else if composite <=? 40 then sell
  else hold.

Definition growth_dir (g : Q) : string :=
  if Qltb 0 g then "growing" else "declining".

Definition truthy_str (o : option string) : bool :=
  match o with
  | Some s => negb (String.eqb s "")
  | None => false
  end.

Definition is_str (o : option string) (v : string) : bool :=
  match o with
  | Some s => String.eqb s v
  | None => false
  end.

Section App.

(** [Number::toString] of a number of magnitude 10^21 or more (exponent
    notation of the shortest digits of a double), which [toFixed] falls back
    to; it is outside the rational model and stays a parameter. *)
Variable NumberToString : Q -> string.

(** [Number.prototype.toFixed(d)], by the steps of ECMA-262: the sign, the
    integer [n] nearest to [x * 10^d] (the larger one on a tie), its digits
    padded with zeros to [d + 1] characters, and the point before the last
    [d] of them. *)
Definition toFixed (d : nat) (x : Q) : string :=
  let s := if Qltb x 0 then "-" else "" in
  let x := if Qltb x 0 then (- x)%Q else x in
  if Qle_bool (inject_Z (10 ^ 21)) x then s ++ NumberToString x
  else
    let n := Qfloor (x * inject_Z (10 ^ Z.of_nat d) + (1 # 2)) in
    let m := show_Z n in
    if (d =? 0)%nat then s ++ m
    else
      let k := String.length m in
      let m := if (k <=? d)%nat then zeros (d + 1 - k) ++ m else m in
      let k := String.length m in
      s ++ substring 0 (k - d) m ++ "." ++ substring (k - d) d m.

Definition thesis_parts (f : Fundamental) (t : Technical) (r : Risk) : list string :=
  let parts := [] in
  let parts :=
    match trailing_pe f with
    | Some pe => if truthy (Some pe) then push parts ("P/E " ++ toFixed 1 pe) else parts
    | None => parts
    end in
  let parts :=
    match revenue_growth_yoy f with
    | Some g =>
        let dir := growth_dir g in
        push parts ("revenue " ++ dir ++ " " ++ toFixed 1 (Qabs (g * 100)) ++ "% YoY")
    | None => parts
    end in
  let parts :=
    match trend_signal t with
    | Some tr => if truthy_str (Some tr) then push parts (tr ++ " trend") else parts
    | None => parts
    end in
  let parts :=
    match sharpe_ratio r with
    | Some sh => push parts ("Sharpe " ++ toFixed 2 sh)
    | None => parts
    end in
  parts.

Definition thesis_of (tk : string) (parts : list string) : string :=
  if (0 <? length parts)%nat then tk ++ ": " ++ join ", " parts ++ "."
  else tk ++ ": Limited data available.".

Definition flags_of (f : Fundamental) (r : Risk) : list string :=
  let flags := [] in
  let flags := if and_gt (trailing_pe f) 50 then push flags "Extreme valuation" else flags in
  let flags := if and_gt (debt_to_equity f) 3 then push flags "Heavy debt" else flags in
  let flags := if and_gt (volatility_annual r) 0.5 then push flags "High volatility" else flags in
  let flags :=
    match max_drawdown r with
    | Some dd =>
        if and_lt (Some dd) (-0.3) then push flags (toFixed 0 (dd * 100) ++ "% max drawdown")
        else flags
    | None => flags
    end in
  flags.

Definition bull_of (f : Fundamental) (t : Technical) : list string :=
  let bull := [] in
  let bull :=
    match dcf_upside_pct f with
    | Some u =>
        if and_gt (Some u) 0 then push bull ("DCF suggests " ++ toFixed 0 (u * 100) ++ "% upside")
        else bull
    | None => bull
    end in
  let bull := if and_gt (revenue_growth_yoy f) 0.1 then push bull "Strong revenue growth" else bull in
  let bull := if is_str (trend_signal t) "bullish" then push bull "Bullish technicals" else bull in
  bull.

Definition bear_of (f : Fundamental) (t : Technical) (r : Risk) : list string :=
  let bear := [] in
  let bear :=
    match trailing_pe f with
    | Some pe =>
        if and_gt (Some pe) 40 then push bear ("Expensive (P/E " ++ toFixed 0 pe ++ ")")
        else bear
    | None => bear
    end in
  let bear := if is_str (trend_signal t) "bearish" then push bear "Bearish technicals" else bear in
  let bear := if and_gt (volatility_annual r) 0.5 then push bear "Very volatile" else bear in
  bear.

(** The body of the inner [try] after [fetchStockDetail] returned [detail];
    [i] is the loop index. *)
Definition synthesize (tk : string) (i : nat) (detail : Detail) : Rec :=
  let f := default no_fundamental (fundamental detail) in
  let t := default no_technical (technical detail) in
  let r := default no_risk (risk detail) in
  let composite := composite f t r in
  {| rec_ticker := tk;
     signal := signal_of composite;
     rec_score := composite;
     investment_thesis := thesis_of tk (thesis_parts f t r);
     bull_case := str_or (join ". " (bull_of f t)) "Limited bullish signals.";
     bear_case := str_or (join ". " (bear_of f t r)) "Limited bearish signals.";
     risk_flags := flags_of f r;
     rec_fundamental := f;
     rec_technical := t;
     rec_risk := r;
     wsb_mention_rank := Z.of_nat i + 1 |}.

(** [`Analyzing ${ticker}... (${i + 1}/${tickers.length})`] *)
Definition analysing (tk : string) (i n : nat) : string :=
  "Analyzing " ++ tk ++ "... (" ++ show_nat (i + 1) ++ "/" ++ show_nat n ++ ")".

(** The React state of [App], followed by what the run shows on the way:
    every value given to [setProgress] and every [console.warn] line. *)
Record app : Type := {
  trending : list Ranked;
  stocks : list (string * Rec);
  loading : bool;
  progress : string;
  error : option string;
  progress_shown : list string;
  console : list string
}.

Definition setTrending (v : list Ranked) (st : app) : app :=
  {| trending := v; stocks := stocks st; loading := loading st; progress := progress st;
     error := error st; progress_shown := progress_shown st; console := console st |}.
Definition setStocks (v : list (string * Rec)) (st : app) : app :=
  {| trending := trending st; stocks := v; loading := loading st; progress := progress st;
     error := error st; progress_shown := progress_shown st; console := console st |}.
Definition setLoading (v : bool) (st : app) : app :=
  {| trending := trending st; stocks := stocks st; loading := v; progress := progress st;
     error := error st; progress_shown := progress_shown st; console := console st |}.
Definition setError (v : option string) (st : app) : app :=
  {| trending := trending st; stocks := stocks st; loading := loading st; progress := progress st;
     error := v; progress_shown := progress_shown st; console := console st |}.
Definition setProgress (v : string) (st : app) : app :=
  {| trending := trending st; stocks := stocks st; loading := loading st; progress := v;
     error := error st; progress_shown := (progress_shown st ++ [v])%list;
     console := console st |}.
Definition console_warn (line : string) (st : app) : app :=
  {| trending := trending st; stocks := stocks st; loading := loading st; progress := progress st;
     error := error st; progress_shown := progress_shown st;
     console := (console st ++ [line])%list |}.

(** [{ ...prev, [ticker]: rec }]: a present key keeps its place. *)
Fixpoint put (k : string) (v : Rec) (m : list (string * Rec)) : list (string * Rec) :=
  match m with
  | [] => [(k, v)]
  | (k', v') :: m' => if String.eqb k k' then (k', v) :: m' else (k', v') :: put k v m'
  end.

(** The provider: the outcome of the [i]-th [await fetchStockDetail(ticker)],
    which throws on a timeout, a network error or a non-success reply and
    otherwise returns the parsed body ([None] for a JSON [null]). *)
Variable fetchStockDetail : nat -> string -> outcome (option Detail).

(** The inner [try] block for the ticker at index [i]. *)
Definition analyse (i : nat) (tk : string) : outcome Rec :=
  detail ← fetchStockDetail i tk;
  match detail with
  | None => Threw "Cannot read properties of null (reading 'fundamental')"
  | Some d => Returned (synthesize tk i d)
  end.

(** One turn of [for (let i = 0; i < tickers.length; i++)]; [n] is
    [tickers.length]. *)
Definition iteration (n i : nat) (entry : Ranked) (st : app) : app :=
  let tk := ticker (mention entry) in
  let st := setProgress (analysing tk i n) st in
  try_catch
    (rec ← analyse i tk;
     Returned (setStocks (put tk rec (stocks st)) st))
    (fun msg => console_warn ("Skipping " ++ tk ++ ": " ++ msg) st).

Fixpoint loop (n i : nat) (tickers : list Ranked) (st : app) : app :=
  match tickers with
  | [] => st
  | entry :: tickers' => loop n (S i) tickers' (iteration n i entry st)
  end.

(** [runAnalysis]; [trend] is the outcome of [await fetchTrending('day')]. *)
Definition runAnalysis (trend : outcome (list Ranked)) (st : app) : app :=
  let st := setTrending [] (setStocks [] (setError None (setLoading true st))) in
  let st := setProgress "Scanning r/WallStreetBets for trending stocks..." st in
  match trend with
  | Threw msg => setLoading false (setError (Some msg) st)
  | Returned data =>
      let tickers := firstn 8 data in
      let st := setTrending tickers st in
      if (length tickers =? 0)%nat then
        setLoading false
          (setError (Some "No trending tickers found. Reddit may be rate-limiting — try again in a minute.") st)
      else
        let st := loop (length tickers) 0 tickers st in
        setLoading false (setProgress "" st)
  end.

Definition by_score (a b : Rec) : bool := rec_score a <=? rec_score b.

(** [Object.values(stocks).sort((a, b) => b.score - a.score)] *)
Definition recommendations (st : app) : list Rec :=
  sort_desc by_score (map snd (stocks st)).

End App.

(** ** The composite score as the specification words it

    The specification writes the defaults with [??], which substitutes only
    for [null] and missing fields. *)



(** Reading a zero as if the field were [null]. *)
Definition zero_to_null (x : option Q) : option Q :=
  match x with
  | Some q => if Qeq_bool q 0 then None else Some q
  | None => None
  end.


(** A score as the MetricBundle schema allows it: absent, or within 0..100. *)
Definition score_ok (x : option Q) : Prop :=
  match x with
  | Some q => (0 <= q <= 100)%Q
  | None => True
  end.

(** ** The Mention of a ticker as the specification words it

    Over the documents that are not pinned and whose ticker set holds the
    ticker: their number, the sum of their scores and the sum of their comment
    counts. *)

Definition names (tk : string) (post : Post) : bool :=
  existsb (String.eqb tk)
    (extractTickers (str_or_empty (title post) ++ " " ++ str_or_empty (selftext post))).

Fixpoint mentioning (tk : string) (children : list (option Post)) : list Post :=
  match children with
  | [] => []
  | Some post :: children' =>
      if negb (stickied post) && names tk post then post :: mentioning tk children'
      else mentioning tk children'
  | None :: children' => mentioning tk children'
  end.

Definition sum_Z (l : list Z) : Z := fold_right Z.add 0 l.

Definition spec_mention (tk : string) (children : list (option Post)) : option Mention :=
  match mentioning tk children with
  | [] => None
  | posts =>
      Some {| ticker := tk;
              mention_count := Z.of_nat (length posts);
              total_score := sum_Z (map (fun p => num_or_zero (score p)) posts);
              total_comments := sum_Z (map (fun p => num_or_zero (num_comments p)) posts) |}
  end.

(** The record of one ticker as the loop over the posts builds it. *)
Definition tally (tk : string) (posts : list Post) (o : option Mention) : option Mention :=
  fold_left (fun o p => Some (count_post p (default (fresh tk) o))) posts o.

(** ** Sample inputs *)

Definition sample_post (t : string) (s c : Z) : option Post :=
  Some {| title := Some t; selftext := None; score := Some s; num_comments := Some c;
          stickied := false |}.

(** Three posts naming GME (300 points and 50 comments together), one of which
    also names AMC. *)
Definition sample_feed : list (option Post) :=
  [ sample_post "GME to the moon" 100 20;
    sample_post "$GME and AMC" 150 10;
    sample_post "GME GME" 50 20 ].

Definition sample_gme : Ranked :=
  weigh {| ticker := "GME"; mention_count := 3; total_score := 300; total_comments := 50 |}.

(** Replies of the upstream listing: a rate-limited one, one whose body is
    not JSON, and a good one. *)
Definition reply_429 : outcome reply :=
  Returned {| ok := false; status := 429; json := Threw "Unexpected token <" |}.
Definition reply_bad_json : outcome reply :=
  Returned {| ok := true; status := 200; json := Threw "Unexpected token <" |}.
Definition reply_feed : outcome reply :=
  Returned {| ok := true; status := 200; json := Returned (Children sample_feed) |}.

(** The body [{ tickers: [], error }] under status 200. *)
Definition error_response (msg : string) : response :=
  {| resp_status := 200; resp_tickers := []; resp_error := Some msg |}.

(** ** The Recommendation of the specification

    The fields that the synthesis computes, without the bundles that the
    source copies into the object. *)
Record Recommendation : Type := {
  rc_ticker : string;
  rc_signal : Signal;
  rc_compositeScore : Z;
  rc_thesis : string;
  rc_bullCase : string;
  rc_bearCase : string;
  rc_riskFlags : list string;
  rc_rank : Z
}.

Definition recommendation_of (rec : Rec) : Recommendation :=
  {| rc_ticker := rec_ticker rec;
     rc_signal := signal rec;
     rc_compositeScore := rec_score rec;
     rc_thesis := investment_thesis rec;
     rc_bullCase := bull_case rec;
     rc_bearCase := bear_case rec;
     rc_riskFlags := risk_flags rec;
     rc_rank := wsb_mention_rank rec |}.

Definition zero_to_null_when (b : bool) (x : option Q) : option Q :=
  if b then zero_to_null x else x.

(** The bundle in which a zero [f.score], [f.trailing_pe], [t.score] or
    [r.score] is replaced by [null], each field only where its flag is set. *)
Definition null_zeros (bf bp bt br : bool) (d : Detail) : Detail :=
  {| fundamental :=
       (fun f =>
          {| f_score := zero_to_null_when bf (f_score f);
             trailing_pe := zero_to_null_when bp (trailing_pe f);
             revenue_growth_yoy := revenue_growth_yoy f;
             debt_to_equity := debt_to_equity f;
             dcf_upside_pct := dcf_upside_pct f |}) <$> fundamental d;
     technical :=
       (fun t =>
          {| t_score := zero_to_null_when bt (t_score t);
             trend_signal := trend_signal t |}) <$> technical d;
     risk :=
       (fun r =>
          {| r_score := zero_to_null_when br (r_score r);
             sharpe_ratio := sharpe_ratio r;
             volatility_annual := volatility_annual r;
             max_drawdown := max_drawdown r |}) <$> risk d |}.

(** ** A number printed with one decimal, and the label the specification
    gives to a growth value *)







(** An instance of the [toFixed] fallback for the sample inputs, none of
    which reaches it. *)
Definition no_exponent : Q -> string := fun _ => "".

(** ** A sample run: the provider fails for GME, answers [null] for AMC and
    answers an empty bundle for every other ticker *)

Definition sample_provider (i : nat) (tk : string) : outcome (option Detail) :=
  if String.eqb tk "GME" then Threw "Failed to analyze GME"
  else if String.eqb tk "AMC" then Returned None
  else Returned (Some {| fundamental := None; technical := None; risk := None |}).

Definition sample_ranked (tk : string) : Ranked :=
  weigh {| ticker := tk; mention_count := 1; total_score := 0; total_comments := 0 |}.

Definition sample_trend : outcome (list Ranked) :=
  Returned [sample_ranked "GME"; sample_ranked "AMC"; sample_ranked "NVDA"].

Definition initial : app :=
  {| trending := []; stocks := []; loading := false; progress := ""; error := None;
     progress_shown := []; console := [] |}.

(** [Object.keys(stocks)] *)
Definition keys (m : list (string * Rec)) : list string := map fst m.

(** Every stored recommendation sits under its own ticker. *)
Definition keyed (m : list (string * Rec)) : Prop :=
  Forall (fun kv => rec_ticker (snd kv) = fst kv) m.

(** The tickers that a run goes through: the first 8 of the trending list. *)
Definition attempted (trend : outcome (list Ranked)) : list Ranked :=
  match trend with
  | Returned data => firstn 8 data
  | Threw _ => []
  end.

Definition sample_detail : Detail :=
  {| fundamental :=
       Some {| f_score := Some 80%Q; trailing_pe := Some 45.26%Q;
               revenue_growth_yoy := Some (-0.1234)%Q; debt_to_equity := Some 3.5%Q;
               dcf_upside_pct := Some 0.256%Q |};
     technical := Some {| t_score := Some 60%Q; trend_signal := Some "bearish" |};
     risk :=
       Some {| r_score := Some 40%Q; sharpe_ratio := Some 0.005%Q;
               volatility_annual := Some 0.51%Q; max_drawdown := Some (-0.355)%Q |} |}.

(** ** Further notions used to state what the extraction returns *)

(** [w] is a contiguous part of [text]. *)
Definition occurs (w text : string) : Prop :=
  exists pre post : string, text = pre ++ w ++ post.

(** The character in front of the cursor of a text read up to [pre]. *)
Definition last_char (pre : string) : option ascii :=
  head (rev (list_ascii_of_string pre)).

Definition first_char (post : string) : option ascii :=
  head (list_ascii_of_string post).

Definition has_capital (text : string) : bool :=
  existsb is_upper (list_ascii_of_string text).

(** ** Further notions used to state what the ranking returns *)

(** A child of the listing that the loop does not skip: it has [data] and is
    not stickied. *)
Definition counted (child : option Post) : bool :=
  match child with
  | Some post => negb (stickied post)
  | None => false
  end.

(** The text of a post as the loop builds it. *)
Definition post_text (post : Post) : string :=
  str_or_empty (title post) ++ " " ++ str_or_empty (selftext post).

(** Two entries that the comparator of a sort does not tell apart. *)
Definition tie {A : Type} (le : A -> A -> bool) (x y : A) : bool :=
  le x y && le y x.

(** The ticker of a ranked entry. *)
Definition ticker_of (e : Ranked) : string := ticker (mention e).

(** ** Transport (src/api.js) and the wiring of [App] *)

(** How [await fetch(url, { signal })] ends: with a response, or with a
    rejection that has a [name] and a [message].  The abort that the timer of
    [fetchWithTimeout] triggers is the rejection named [AbortError]. *)
Inductive fetched (R : Type) : Type :=
| Resolved (res : R)
| Rejected (name msg : string).
Arguments Resolved {R} res.
Arguments Rejected {R} name msg.

(** src/api.js [fetchWithTimeout]: the response is handed on, an abort
    becomes the timeout error, any other rejection is thrown again. *)
Definition fetchWithTimeout {R : Type} (raw : fetched R) : outcome R :=
  match raw with
  | Resolved res => Returned res
  | Rejected name msg =>
      if String.eqb name "AbortError"
      then Threw "Request timed out — the server may be starting up. Try again."
      else Threw msg
  end.

(** The reply of [/api/stock/<ticker>]: [res.ok] and [res.json()]. *)
Record stock_reply : Type := {
  stock_ok : bool;
  stock_json : outcome (option Detail)
}.

(** src/api.js [fetchStockDetail]; [raw] is how the request ends. *)
Definition fetchStockDetail (ticker : string) (raw : fetched stock_reply)
  : outcome (option Detail) :=
  res ← fetchWithTimeout raw;
  if negb (stock_ok res) then Threw ("Failed to analyze " ++ ticker)
  else stock_json res.

(** [runAnalysis] with the two imports of src/App.jsx line 3 in place:
    [listing] is how the request to Reddit ends, [stock i tk] how the [i]-th
    request for a stock detail ends. *)
Definition App_runAnalysis (NumberToString : Q -> string)
    (listing : fetched reply) (stock : nat -> string -> fetched stock_reply)
    (st : app) : app :=
  runAnalysis NumberToString (fun i tk => fetchStockDetail tk (stock i tk))
    (fetchTrending (fetchWithTimeout listing)) st.

(** [console.warn(`Skipping ${ticker}:`, e.message)] as the console prints it *)
Definition skipping (tk msg : string) : string := "Skipping " ++ tk ++ ": " ++ msg.

(** ** The dashboard (src/components/Dashboard.jsx) *)
Module Dashboard.

(** [[...recs].sort((a, b) => b.score - a.score)] *)
Definition sorted (recs : list Rec) : list Rec := sort_desc by_score recs.

(** [recs.find(r => r.ticker === selectedTicker)]; [None] is the [null] of
    the initial state, which no ticker equals. *)
Definition selected (recs : list Rec) (selectedTicker : option string) : option Rec :=
  match selectedTicker with
  | Some t => find (fun r => String.eqb (rec_ticker r) t) recs
  | None => None
  end.

(** The [onClick] of a card: [rec.ticker === selectedTicker ? null : rec.ticker] *)
Definition click (selectedTicker : option string) (tk : string) : option string :=
  match selectedTicker with
  | Some t => if String.eqb tk t then None else Some tk
  | None => Some tk
  end.

End Dashboard.

(** ** What the cards show (src/components) *)

(** StockCard.jsx line 37 and AnalysisReport.jsx line 55, the colour of the
    score bar:
    [score >= 70 ? '#00c853' : score >= 40 ? '#ffd600' : '#ff1744'] *)
Definition score_colour (score : Z) : string :=
  if score >=? 70 then "#00c853" else if score >=? 40 then "#ffd600" else "#ff1744".

Module StockCard.

(** [investment_thesis || 'Click to see full analysis'] *)
Definition thesis_snippet (r : Rec) : string :=
  str_or (investment_thesis r) "Click to see full analysis".


End StockCard.

(** The five signals from the most bearish to the most bullish. *)
Definition signal_rank (s : Signal) : Z :=
  match s with
  | strong_sell => 0
  | sell => 1
  | hold => 2
  | buy => 3
  | strong_buy => 4
  end.

(** Each of the three scores that the composite reads from [d2], [x || 50]
    with [x] the field, is at least that read from [d1]. *)
Definition no_worse (d1 d2 : Detail) : Prop :=
  (or_default (f_score (default no_fundamental (fundamental d1))) 50
   <= or_default (f_score (default no_fundamental (fundamental d2))) 50)%Q
  /\ (or_default (t_score (default no_technical (technical d1))) 50
      <= or_default (t_score (default no_technical (technical d2))) 50)%Q
  /\ (or_default (r_score (default no_risk (risk d1))) 50
      <= or_default (r_score (default no_risk (risk d2))) 50)%Q.


(** ** A sample run of [App] over the transport: the listing resolves with
    the sample feed; the request for GME is aborted by the timer and every
    other request resolves with the sample bundle *)

Definition sample_listing : fetched reply :=
  Resolved {| ok := true; status := 200; json := Returned (Children sample_feed) |}.

Definition sample_stock (i : nat) (tk : string) : fetched stock_reply :=
  if String.eqb tk "GME" then Rejected "AbortError" "The user aborted a request."
  else Resolved {| stock_ok := true; stock_json := Returned (Some sample_detail) |}.

(** A bundle with no part, and one whose only score is a fundamental score
    of 80. *)
Definition empty_detail : Detail :=
  {| fundamental := None; technical := None; risk := None |}.

Definition sample_strong : Detail :=
  {| fundamental :=
       Some {| f_score := Some 80%Q; trailing_pe := None; revenue_growth_yoy := None;
               debt_to_equity := None; dcf_upside_pct := None |};
     technical := None; risk := None |}.


(** * Properties *)

(** ** The model on sample inputs *)

Example extractTickers_sample :
  extractTickers "Buy $GME and AMC now, YOLO $YOLO TSLA's $A x$BB ABCDEF $ABCDEF GME1 $F_ NVDA"
  = ["GME"; "BB"; "AMC"; "TSLA"; "NVDA"].
Proof. vm_compute. reflexivity. Qed.

Example matchAll_sample :
  matchAll TICKER_RE "$GME $YOLO $A x$BB $ABCDEF $F_ $Fx $T" = ["GME"; "YOLO"; "A"; "BB"; "T"]
  /\ matchAll BARE_TICKER_RE "GME, A, AMC1 nvda TSLA's ABCDEF $BB" = ["GME"; "TSLA"; "BB"].
Proof. vm_compute. split; reflexivity. Qed.

Example rank_sample :
  map (fun e => (ticker (mention e), mention_count (mention e)))
    (rank (aggregate
             [ sample_post "AMC and GME" 10 0; None; sample_post "GME" 10 0;
               Some {| title := Some "TSLA TSLA TSLA"; selftext := Some "TSLA";
                       score := Some 1000000; num_comments := None; stickied := true |};
               sample_post "NVDA, AMC" 10 0 ]))
  = [("AMC", 2); ("GME", 2); ("NVDA", 1)].
Proof. vm_compute. reflexivity. Qed.

Example toFixed_samples :
  toFixed no_exponent 1 45.26 = "45.3" /\ toFixed no_exponent 1 0.05 = "0.1"
  /\ toFixed no_exponent 1 (-0.04) = "-0.0" /\ toFixed no_exponent 2 0.005 = "0.01"
  /\ toFixed no_exponent 0 (-35.5) = "-36" /\ toFixed no_exponent 0 25.6 = "26"
  /\ toFixed no_exponent 2 1234.5 = "1234.50" /\ toFixed no_exponent 0 0 = "0".
Proof. vm_compute. repeat split. Qed.

Example synthesize_sample :
  recommendation_of (synthesize no_exponent "GME" 0 sample_detail)
  = {| rc_ticker := "GME"; rc_signal := buy; rc_compositeScore := 61;
       rc_thesis := "GME: P/E 45.3, revenue declining 12.3% YoY, bearish trend, Sharpe 0.01.";
       rc_bullCase := "DCF suggests 26% upside";
       rc_bearCase := "Expensive (P/E 45). Bearish technicals. Very volatile";
       rc_riskFlags := ["Heavy debt"; "High volatility"; "-36% max drawdown"];
       rc_rank := 1 |}.
Proof. vm_compute. reflexivity. Qed.

Example synthesize_empty :
  recommendation_of
    (synthesize no_exponent "GME" 2 {| fundamental := None; technical := None; risk := None |})
  = {| rc_ticker := "GME"; rc_signal := hold; rc_compositeScore := 50;
       rc_thesis := "GME: Limited data available.";
       rc_bullCase := "Limited bullish signals.";
       rc_bearCase := "Limited bearish signals.";
       rc_riskFlags := []; rc_rank := 3 |}.
Proof. vm_compute. reflexivity. Qed.

(** ** Strings and decimal digits *)

Lemma append_cons (c : ascii) (a b : string) : String c a ++ b = String c (a ++ b).
Proof. reflexivity. Qed.

Lemma append_nil_r (s : string) : s ++ "" = s.
Proof.
  induction s as [|c s IH]; [reflexivity|]. now rewrite append_cons, IH.
Qed.

Lemma append_assoc (a b c : string) : (a ++ b) ++ c = a ++ (b ++ c).
Proof.
  induction a as [|x a IH]; [reflexivity|]. now rewrite !append_cons, IH.
Qed.

Lemma list_of_append (a b : string) :
  list_ascii_of_string (a ++ b)
  = (list_ascii_of_string a ++ list_ascii_of_string b)%list.
Proof.
  induction a as [|x a IH]; [reflexivity|]. rewrite append_cons. simpl. now rewrite IH.
Qed.

Lemma length_append (a b : string) :
  String.length (a ++ b) = (String.length a + String.length b)%nat.
Proof.
  induction a as [|x a IH]; [reflexivity|]. rewrite append_cons. simpl. now rewrite IH.
Qed.

(** An element of a joined array is a substring of the result. *)
Lemma join_In (sep c : string) (l : list string) :
  In c l -> exists pre post, join sep l = pre ++ c ++ post.
Proof.
  unfold join. induction l as [|x l IH]; [intros []|].
  intros [->|Hin].
  - destruct l as [|y l]; simpl.
    + exists "", "". now rewrite append_nil_r.
    + exists "". eexists. reflexivity.
  - destruct l as [|y l]; [destruct Hin|].
    destruct (IH Hin) as (pre & post & E).
    exists (x ++ sep ++ pre), post.
    change (String.concat sep (x :: y :: l))
      with (x ++ sep ++ String.concat sep (y :: l)).
    now rewrite E, !append_assoc.
Qed.






(** ** Ticker extraction *)

Lemma mstate_eta (s : mstate) : MState (prev s) (rest s) (cap s) = s.
Proof. now destruct s. Qed.

(** The repetition stops at [s] without consuming anything. *)
Ltac stop_here s :=
  exists [], (rest s), (prev s); rewrite mstate_eta;
  repeat match goal with H : rest s = _ |- _ => rewrite H end;
  simpl; repeat split; auto; lia.

(** A greedy repetition of a character class consumes between [lo] and [hi]
    characters of the class and hands the rest to its continuation. *)
Lemma rep_range_sound (a b : ascii) (k : cont) (hi lo : nat) (s m : mstate) :
  rep (run (Range a b)) lo hi k s = Some m ->
  exists w t p,
    rest s = (w ++ t)%list /\ (lo <= length w <= hi)%nat
    /\ forallb (in_range a b) w = true
    /\ k (MState p t (cap s)) = Some m.
Proof.
  revert lo s. induction hi as [|hi IH]; intros lo s; simpl.
  - destruct (Nat.eqb_spec lo 0) as [->|]; [|discriminate].
    intros H. stop_here s.
  - unfold eat at 1. destruct (rest s) as [|c t0] eqn:Hrest.
    + destruct (Nat.eqb_spec lo 0) as [->|]; [|discriminate].
      intros H. stop_here s.
    + destruct (in_range a b c) eqn:Hc.
      * destruct (rep _ (Nat.pred lo) hi k _) as [m'|] eqn:Hrec.
        -- intros [= ->]. apply IH in Hrec. simpl in Hrec.
           destruct Hrec as (w & t & p & -> & Hlen & Hall & Hk).
           exists (c :: w), t, p. simpl. rewrite Hc, Hall.
           repeat split; auto; lia.
        -- destruct (Nat.eqb_spec lo 0) as [->|]; [|discriminate].
           intros H. stop_here s.
      * destruct (Nat.eqb_spec lo 0) as [->|]; [|discriminate].
        intros H. stop_here s.
Qed.

(** On a text made of [lo] to [hi] characters of the class and nothing
    else, the repetition followed by [$] succeeds. *)
Lemma rep_range_complete (a b : ascii) (hi lo : nat) (s : mstate) :
  (lo <= length (rest s) <= hi)%nat ->
  forallb (in_range a b) (rest s) = true ->
  exists m, rep (run (Range a b)) lo hi (run Eol Some) s = Some m.
Proof.
  revert lo s. induction hi as [|hi IH]; intros lo s Hlen Hall; simpl.
  - destruct (rest s) eqn:Hrest; simpl in Hlen; [|lia].
    replace lo with 0%nat by lia. simpl. eauto.
  - unfold eat at 1. destruct (rest s) as [|c t0] eqn:Hrest; simpl in *.
    + replace lo with 0%nat by lia. simpl. eauto.
    + apply andb_true_iff in Hall as [Hc Hall]. rewrite Hc.
      destruct (IH (Nat.pred lo) (MState (Some c) t0 (cap s))) as [m Hm];
        simpl; [lia|exact Hall|].
      rewrite Hm. eauto.
Qed.

Lemma search_hit (fuel : nat) (r : re) (s m : mstate) :
  exec_at r s = Some m -> search (S fuel) r s = Some m.
Proof. intros H. simpl. now rewrite H. Qed.

Lemma ticker_shape_test (w : string) :
  ticker_shape w -> test TICKER_SHAPE_RE w = true.
Proof.
  intros [Hlen Hall].
  destruct (rep_range_complete "A" "Z" 5 1
              (MState None (list_ascii_of_string w) None)) as [m Hm]; auto.
  unfold test. now rewrite (search_hit _ _ _ m).
Qed.

Lemma consumed_app (p q : option ascii) (c d : option (list ascii)) (w t : list ascii) :
  consumed (MState p (w ++ t) c) (MState q t d) = w.
Proof.
  unfold consumed. simpl. rewrite length_app.
  replace (length w + length t - length t)%nat with (length w) by lia.
  rewrite firstn_app, firstn_all, Nat.sub_diag. simpl. apply app_nil_r.
Qed.

(** What the group of either pattern captures, and where the match ends. *)
Lemma group_capture (lo hi : nat) (s m : mstate) :
  run (Cat (Grp (Rep lo hi (Range "A" "Z"))) WordB) Some s = Some m ->
  exists w, cap m = Some w /\ (lo <= length w <= hi)%nat
            /\ forallb is_upper w = true /\ rest s = (w ++ rest m)%list.
Proof.
  cbn [run]. intros H. apply rep_range_sound in H.
  destruct H as (w & t & p & Hrest & Hlen & Hall & Hk).
  destruct (at_boundary _) in Hk; [|discriminate].
  injection Hk as <-. exists w. cbn [cap prev rest].
  destruct s as [ps rs cs]. simpl in Hrest. subst rs.
  rewrite consumed_app. auto.
Qed.

Lemma exec_TICKER_RE_inv (s m : mstate) :
  exec_at TICKER_RE s = Some m ->
  exists w, cap m = Some w /\ (1 <= length w <= 5)%nat
            /\ forallb is_upper w = true
            /\ rest s = ("$"%char :: w ++ rest m)%list.
Proof.
  unfold exec_at, TICKER_RE. cbn [run]. unfold eat at 1. cbn [rest].
  destruct (rest s) as [|c t]; [discriminate|].
  destruct (Ascii.eqb_spec "$" c) as [<-|]; [|discriminate].
  intros H. apply group_capture in H. cbn [rest] in H.
  destruct H as (w & Hcap & Hlen & Hall & ->). eauto 6.
Qed.

Lemma exec_TICKER_RE (s m : mstate) :
  exec_at TICKER_RE s = Some m -> ticker_shape (group1 m).
Proof.
  intros H. apply exec_TICKER_RE_inv in H as (w & Hcap & Hlen & Hall & _).
  unfold ticker_shape, group1. rewrite Hcap, list_ascii_of_string_of_list_ascii.
  auto.
Qed.

Lemma exec_BARE_TICKER_RE (s m : mstate) :
  exec_at BARE_TICKER_RE s = Some m -> ticker_shape (group1 m).
Proof.
  unfold exec_at, BARE_TICKER_RE. cbn [run].
  destruct (at_boundary _); [|discriminate].
  intros H. apply group_capture in H. destruct H as (w & Hcap & Hlen & Hall & _).
  unfold ticker_shape, group1. rewrite Hcap, list_ascii_of_string_of_list_ascii.
  split; [lia|auto].
Qed.

Lemma scan_Forall (P : string -> Prop) (r : re) :
  (forall s m, exec_at r s = Some m -> P (group1 m)) ->
  forall fuel s, Forall P (scan fuel r s).
Proof.
  intros Hexec. induction fuel as [|fuel IH]; intros s; simpl; [constructor|].
  destruct (exec_at r s) as [m|] eqn:Hm.
  - constructor; [eauto|].
    destruct (_ <? _)%nat; [apply IH|].
    destruct (step_over s); [apply IH|constructor].
  - destruct (step_over s); [apply IH|constructor].
Qed.

(** The fuel that [matchAll] gives to [scan] is enough: any two amounts
    above the length of the remaining text give the same matches. *)
Lemma scan_fuel (r : re) (f1 f2 : nat) (s : mstate) :
  (length (rest s) < f1)%nat -> (length (rest s) < f2)%nat ->
  scan f1 r s = scan f2 r s.
Proof.
  revert f2 s. induction f1 as [|f1 IH]; intros [|f2] s H1 H2; try lia.
  assert (Hstep : match step_over s with
                  | Some s' => scan f1 r s'
                  | None => []
                  end
                  = match step_over s with
                    | Some s' => scan f2 r s'
                    | None => []
                    end).
  { unfold step_over. destruct (rest s) as [|a t] eqn:E; [reflexivity|].
    simpl in H1, H2. apply IH; simpl; lia. }
  simpl. destruct (exec_at r s) as [m|]; [|exact Hstep].
  f_equal. destruct (Nat.ltb_spec (length (rest m)) (length (rest s))).
  - apply IH; lia.
  - exact Hstep.
Qed.

Lemma rep_succ (once : cont -> cont) (lo hi : nat) (k : cont) (s : mstate) :
  rep once lo (S hi) k s
  = match once (rep once (Nat.pred lo) hi k) s with
    | Some s' => Some s'
    | None => if (lo =? 0)%nat then k s else None
    end.
Proof. reflexivity. Qed.

Lemma run_Range (a b : ascii) (k : cont) (s : mstate) :
  run (Range a b) k s = eat s (in_range a b) k.
Proof. reflexivity. Qed.

(** Greedy matching reads a whole run of the class when the run fits the
    bounds and the continuation accepts what follows. *)
Lemma rep_range_greedy (a b : ascii) (k : cont) (w t : list ascii) (m : mstate) :
  forallb (in_range a b) w = true ->
  match t with c :: _ => in_range a b c = false | [] => True end ->
  forall (hi lo : nat) (s : mstate),
    rest s = (w ++ t)%list -> (lo <= length w <= hi)%nat ->
    k (after w t s) = Some m ->
    rep (run (Range a b)) lo hi k s = Some m.
Proof.
  intros Hall Ht. induction w as [|c w IH]; intros hi lo s Hrest Hlen Hk.
  - simpl in Hlen. replace lo with 0%nat by lia.
    unfold after in Hk. simpl in Hk, Hrest. rewrite <- Hrest, mstate_eta in Hk.
    destruct hi as [|hi]; [exact Hk|].
    rewrite rep_succ, run_Range. unfold eat. rewrite Hrest.
    destruct t as [|c t]; [exact Hk|]. now rewrite Ht.
  - simpl in Hall. apply andb_true_iff in Hall as [Hc Hall].
    destruct hi as [|hi]; simpl in Hlen; [lia|].
    rewrite rep_succ, run_Range. unfold eat. rewrite Hrest, <- app_comm_cons, Hc.
    rewrite (IH Hall hi (Nat.pred lo) (MState (Some c) (w ++ t)%list (cap s)));
      [reflexivity|reflexivity|lia|exact Hk].
Qed.

Lemma consumed_after (w t : list ascii) (s : mstate) :
  rest s = (w ++ t)%list -> consumed s (after w t s) = w.
Proof. destruct s as [p r c]. simpl. intros ->. apply consumed_app. Qed.

Lemma after_prev_upper (w t : list ascii) (s : mstate) :
  w <> [] -> forallb is_upper w = true -> word_opt (prev (after w t s)) = true.
Proof.
  unfold after. cbn [prev]. generalize (prev s).
  induction w as [|c w IH]; intros p Hne Hall; [congruence|].
  simpl in Hall. apply andb_true_iff in Hall as [Hc Hall]. simpl.
  destruct w as [|c' w]; [|apply IH; [discriminate|exact Hall]].
  simpl. unfold is_word. unfold is_upper in Hc. now rewrite Hc.
Qed.

(** At a [$] followed by one to five capitals and then a non-word character
    or the end of the text, the cashtag pattern matches and captures the
    capitals. *)
Lemma exec_TICKER_RE_hit (w t : list ascii) (s : mstate) :
  rest s = ("$"%char :: w ++ t)%list ->
  (1 <= length w <= 5)%nat -> forallb is_upper w = true ->
  word_opt (head t) = false ->
  exists m, exec_at TICKER_RE s = Some m /\ cap m = Some w /\ rest m = t.
Proof.
  intros Hrest Hlen Hall Ht.
  unfold exec_at, TICKER_RE. cbn [run]. unfold eat at 1. cbn [rest].
  rewrite Hrest. cbn [Ascii.eqb Bool.eqb cap].
  set (s1 := MState (Some "$"%char) (w ++ t)%list None).
  exists (MState (prev (after w t s1)) t (Some w)).
  split; [|split; reflexivity].
  apply rep_range_greedy with (w := w) (t := t); auto.
  - destruct t as [|c t]; [exact I|]. simpl in Ht. unfold is_word in Ht.
    destruct (in_range "A" "Z" c); [discriminate|reflexivity].
  - rewrite (consumed_after w t s1 eq_refl).
    change (rest (after w t s1)) with t.
    unfold at_boundary. cbn [prev rest].
    rewrite after_prev_upper, Ht; [reflexivity| |exact Hall].
    destruct w; [simpl in Hlen; lia|discriminate].
Qed.

(** A run of capitals in front of a text that holds a [$] ends before it. *)
Lemma capitals_before_dollar (u t p q : list ascii) :
  forallb is_upper u = true ->
  (u ++ t)%list = (p ++ "$"%char :: q)%list ->
  exists p', p = (u ++ p')%list /\ t = (p' ++ "$"%char :: q)%list.
Proof.
  revert p. induction u as [|c u IH]; intros p Hall E; [exists p; auto|].
  simpl in Hall. apply andb_true_iff in Hall as [Hc Hall].
  destruct p as [|c' p]; simpl in E; injection E as -> E.
  - discriminate Hc.
  - destruct (IH p Hall E) as (p' & -> & ->). exists p'. auto.
Qed.

(** [scan] reaches every such cashtag, whatever comes before it. *)
Lemma scan_finds_cashtag (w t : list ascii) :
  (1 <= length w <= 5)%nat -> forallb is_upper w = true ->
  word_opt (head t) = false ->
  forall (fuel : nat) (pre : list ascii) (s : mstate),
    rest s = (pre ++ "$"%char :: w ++ t)%list ->
    (length (rest s) < fuel)%nat ->
    In (string_of_list_ascii w) (scan fuel TICKER_RE s).
Proof.
  intros Hlen Hall Ht. induction fuel as [|fuel IH]; intros pre s Hrest Hfuel; [lia|].
  simpl. destruct pre as [|c pre].
  - destruct (exec_TICKER_RE_hit w t s Hrest Hlen Hall Ht) as (m & -> & Hcap & _).
    left. unfold group1. now rewrite Hcap.
  - assert (Hstep : In (string_of_list_ascii w)
                      match step_over s with
                      | Some s' => scan fuel TICKER_RE s'
                      | None => []
                      end).
    { unfold step_over. rewrite Hrest. simpl.
      apply (IH pre); [reflexivity|]. rewrite Hrest in Hfuel. simpl in *. lia. }
    destruct (exec_at TICKER_RE s) as [m|] eqn:Hm; [|exact Hstep].
    right. apply exec_TICKER_RE_inv in Hm as (u & _ & Hu & Hup & Hs).
    rewrite Hrest in Hs. simpl in Hs. injection Hs as -> Hs. symmetry in Hs.
    destruct (capitals_before_dollar u (rest m) pre (w ++ t)%list Hup Hs)
      as (p' & -> & Hm).
    assert (Hlt : (length (rest m) < length (rest s))%nat).
    { rewrite Hrest, Hm. simpl. rewrite !length_app. simpl. lia. }
    apply Nat.ltb_lt in Hlt as Hb. rewrite Hb.
    apply (IH p'); [exact Hm|lia].
Qed.

Lemma matchAll_finds_cashtag (pre w post : string) :
  ticker_shape w ->
  word_opt (head (list_ascii_of_string post)) = false ->
  In w (matchAll TICKER_RE (pre ++ "$" ++ w ++ post)).
Proof.
  intros [Hlen Hall] Hpost. unfold matchAll.
  rewrite <- (string_of_list_ascii_of_string w) at 1.
  apply scan_finds_cashtag with (t := list_ascii_of_string post)
                                (pre := list_ascii_of_string pre); auto.
  cbn [rest]. now rewrite !list_of_append.
Qed.

Lemma in_lexicon_spec (w : string) :
  (in_lexicon w = true <-> w ∈ FALSE_POSITIVES)
  /\ (in_lexicon w = false <-> w ∉ FALSE_POSITIVES).
Proof.
  unfold in_lexicon. split.
  - exact (bool_decide_eq_true (w ∈ FALSE_POSITIVES)).
  - exact (bool_decide_eq_false (w ∈ FALSE_POSITIVES)).
Qed.

Lemma set_add_In (w x : string) (s : list string) :
  In x (set_add w s) <-> In x s \/ x = w.
Proof.
  unfold set_add. destruct (existsb (String.eqb w) s) eqn:E.
  - split; [auto|]. intros [H| ->]; [exact H|].
    apply existsb_exists in E as (y & Hy & Heq).
    apply String.eqb_eq in Heq. now subst.
  - rewrite in_app_iff. simpl. intuition.
Qed.

Lemma keep_In (w x : string) (acc : list string) :
  In x (keep acc w) <-> In x acc \/ (x = w /\ in_lexicon w = false).
Proof.
  unfold keep. destruct (in_lexicon w).
  - split; [auto|]. intros [H|[_ H]]; [exact H|discriminate].
  - rewrite set_add_In.
    split; (intros [H|H]; [left; exact H|right]); [auto|apply H].
Qed.

Lemma fold_keep_In (l acc : list string) (x : string) :
  In x (fold_left keep l acc) <->
  In x acc \/ (In x l /\ in_lexicon x = false).
Proof.
  revert acc. induction l as [|w l IH]; intros acc; cbn [fold_left In].
  - split; [auto|]. intros [H|[[] _]]. exact H.
  - rewrite IH, keep_In. split.
    + intros [[H|[-> H]]|[H1 H2]]; auto.
    + intros [H|[[<-|H1] H2]]; auto.
Qed.

Lemma extractTickers_In (text x : string) :
  In x (extractTickers text) <->
  (In x (matchAll TICKER_RE text) \/ In x (matchAll BARE_TICKER_RE text))
  /\ in_lexicon x = false.
Proof.
  unfold extractTickers. rewrite !fold_keep_In. cbn [In]. tauto.
Qed.

(** A cashtag outside the lexicon, followed by a non-word character or the
    end of the text, is extracted. *)
Lemma cashtag_extracted (pre w post : string) :
  ticker_shape w ->
  word_opt (head (list_ascii_of_string post)) = false ->
  w ∉ FALSE_POSITIVES ->
  In w (extractTickers (pre ++ "$" ++ w ++ post)).
Proof.
  intros Hw Hpost Hlex. apply extractTickers_In. split.
  - left. now apply matchAll_finds_cashtag.
  - now apply in_lexicon_spec.
Qed.

(** C8: every ticker returned for a text matches /^[A-Z]{1,5}$/ and is not
    in the lexicon. *)
Theorem extracted_tickers_wellformed (text w : string) :
  In w (extractTickers text) ->
  test TICKER_SHAPE_RE w = true /\ w ∉ FALSE_POSITIVES.
Proof.
  intros H. apply extractTickers_In in H as [H Hlex].
  split; [|now apply in_lexicon_spec].
  apply ticker_shape_test. destruct H as [H|H].
  - eapply List.Forall_forall in H; [exact H|].
    apply scan_Forall, exec_TICKER_RE.
  - eapply List.Forall_forall in H; [exact H|].
    apply scan_Forall, exec_BARE_TICKER_RE.
Qed.

Lemma extracted_tickers_wellformed_witness :
  test TICKER_SHAPE_RE "GME" = true /\ "GME" ∉ FALSE_POSITIVES.
Proof.
  apply (extracted_tickers_wellformed "Loading up on $GME today").
  vm_compute. left. reflexivity.
Defined.




(** ** Ranking *)

Section Sorting.
Context {A : Type} (le : A -> A -> bool).

Lemma insert_desc_perm (x : A) (l : list A) :
  Permutation (insert_desc le x l) (x :: l).
Proof.
  induction l as [|y l IH]; simpl; [reflexivity|].
  destruct (le y x); [reflexivity|].
  rewrite IH. apply perm_swap.
Qed.

Lemma sort_desc_perm (l : list A) : Permutation (sort_desc le l) l.
Proof.
  induction l as [|x l IH]; simpl; [reflexivity|].
  rewrite insert_desc_perm. now apply perm_skip.
Qed.

Lemma sort_desc_In (x : A) (l : list A) : In x (sort_desc le l) <-> In x l.
Proof.
  split; apply Permutation_in; [|symmetry]; apply sort_desc_perm.
Qed.

End Sorting.

Lemma In_firstn {A : Type} (n : nat) (x : A) (l : list A) :
  In x (firstn n l) -> In x l.
Proof.
  revert l. induction n as [|n IH]; intros [|y l]; simpl; try tauto.
  intros [->|H]; auto.
Qed.

(** *** The counters of a ticker *)

Lemma get_update (k k' : string) (f : Mention -> Mention) (m : mentions_t) :
  get k (update k' f m) = if String.eqb k k' then f <$> get k m else get k m.
Proof.
  induction m as [|[k0 v] m IH]; simpl; [now destruct (String.eqb k k')|].
  destruct (String.eqb_spec k' k0) as [->|Hne]; simpl.
  - destruct (String.eqb_spec k k0) as [->|Hk]; reflexivity.
  - rewrite IH. destruct (String.eqb_spec k k0) as [->|Hk]; [|reflexivity].
    destruct (String.eqb_spec k0 k'); [congruence|reflexivity].
Qed.

Lemma get_app (k k' : string) (v : Mention) (m : mentions_t) :
  get k (m ++ [(k', v)])%list
  = match get k m with
    | Some x => Some x
    | None => if String.eqb k k' then Some v else None
    end.
Proof.
  induction m as [|[k0 v0] m IH]; simpl; [reflexivity|].
  now destruct (String.eqb k k0).
Qed.

Lemma bump_get (post : Post) (m : mentions_t) (tk k : string) :
  get k (bump post m tk)
  = if String.eqb k tk then Some (count_post post (default (fresh tk) (get tk m)))
    else get k m.
Proof.
  unfold bump. rewrite get_update.
  destruct (String.eqb_spec k tk) as [->|Hne].
  - destruct (get tk m) as [x|] eqn:E; [now rewrite E|].
    now rewrite get_app, E, String.eqb_refl.
  - destruct (get tk m) as [x|] eqn:E; [reflexivity|].
    rewrite get_app. destruct (get k m); [reflexivity|].
    now apply String.eqb_neq in Hne as ->.
Qed.

Lemma existsb_eqb_In (k : string) (l : list string) :
  existsb (String.eqb k) l = true <-> In k l.
Proof.
  rewrite existsb_exists. split.
  - intros (x & Hx & E). apply String.eqb_eq in E. now subst.
  - intros H. exists k. split; [exact H|apply String.eqb_refl].
Qed.

Lemma fold_bump_get (post : Post) (l : list string) (m : mentions_t) (k : string) :
  NoDup l ->
  get k (fold_left (bump post) l m)
  = if existsb (String.eqb k) l
    then Some (count_post post (default (fresh k) (get k m)))
    else get k m.
Proof.
  intros Hl. revert m. induction Hl as [|tk l Hnotin Hl IH]; intros m; simpl;
    [reflexivity|].
  rewrite IH, bump_get. destruct (String.eqb_spec k tk) as [->|Hne]; simpl.
  - destruct (existsb (String.eqb tk) l) eqn:E; [|reflexivity].
    apply existsb_eqb_In, list_elem_of_In in E. contradiction.
  - reflexivity.
Qed.

Lemma set_add_NoDup (w : string) (l : list string) : NoDup l -> NoDup (set_add w l).
Proof.
  intros Hl. unfold set_add. destruct (existsb (String.eqb w) l) eqn:E; [exact Hl|].
  apply NoDup_app. repeat split; [exact Hl| |apply NoDup_singleton].
  intros x Hx [->|[]]%list_elem_of_In. apply list_elem_of_In, existsb_eqb_In in Hx.
  congruence.
Qed.

(** The output of [extractTickers] is a set: no ticker twice. *)
Lemma extractTickers_NoDup (text : string) : NoDup (extractTickers text).
Proof.
  assert (H : forall l acc, NoDup acc -> NoDup (fold_left keep l acc)).
  { induction l as [|w l IH]; intros acc Hacc; simpl; [exact Hacc|].
    apply IH. unfold keep. destruct (in_lexicon w); [exact Hacc|].
    now apply set_add_NoDup. }
  unfold extractTickers. apply H, H. constructor.
Qed.

Lemma visit_get (m : mentions_t) (child : option Post) (k : string) :
  get k (visit m child)
  = match child with
    | Some post =>
        if negb (stickied post) && names k post
        then Some (count_post post (default (fresh k) (get k m)))
        else get k m
    | None => get k m
    end.
Proof.
  destruct child as [post|]; [|reflexivity]. unfold visit.
  destruct (stickied post); [reflexivity|].
  cbv zeta. rewrite fold_bump_get by apply extractTickers_NoDup. reflexivity.
Qed.

Lemma fold_visit_get (children : list (option Post)) (m : mentions_t) (k : string) :
  get k (fold_left visit children m) = tally k (mentioning k children) (get k m).
Proof.
  revert m. induction children as [|child children IH]; intros m; [reflexivity|].
  cbn [fold_left]. rewrite IH, visit_get.
  destruct child as [post|]; [|reflexivity]. cbn [mentioning].
  destruct (negb (stickied post) && names k post); reflexivity.
Qed.

Lemma tally_Some (k : string) (posts : list Post) (t : Mention) :
  tally k posts (Some t)
  = Some {| ticker := ticker t;
            mention_count := mention_count t + Z.of_nat (length posts);
            total_score :=
              total_score t + sum_Z (map (fun p => num_or_zero (score p)) posts);
            total_comments :=
              total_comments t
              + sum_Z (map (fun p => num_or_zero (num_comments p)) posts) |}.
Proof.
  unfold tally. revert t. induction posts as [|p posts IH]; intros t.
  - destruct t. cbn. now rewrite !Z.add_0_r.
  - cbn [fold_left default from_option]. rewrite IH. unfold count_post, sum_Z.
    cbn [ticker mention_count total_score total_comments map fold_right length].
    unfold id. f_equal. f_equal; lia.
Qed.

(** The record that the aggregation holds for a ticker is the Mention of the
    specification. *)
Lemma aggregate_get (children : list (option Post)) (k : string) :
  get k (aggregate children) = spec_mention k children.
Proof.
  unfold aggregate, spec_mention. rewrite fold_visit_get. cbn [get].
  destruct (mentioning k children) as [|p posts]; [reflexivity|].
  change (tally k (p :: posts) None)
    with (tally k posts (Some (count_post p (fresh k)))).
  rewrite tally_Some. unfold count_post, fresh, sum_Z.
  cbn [ticker mention_count total_score total_comments map fold_right length].
  unfold id. f_equal. f_equal; lia.
Qed.

Lemma update_keys (k : string) (f : Mention -> Mention) (m : mentions_t) :
  map fst (update k f m) = map fst m.
Proof.
  induction m as [|[k0 v] m IH]; simpl; [reflexivity|].
  destruct (String.eqb k k0); simpl; now rewrite ?IH.
Qed.

Lemma get_None (k : string) (m : mentions_t) :
  get k m = None -> ~ In k (map fst m).
Proof.
  induction m as [|[k0 v] m IH]; simpl; [tauto|].
  destruct (String.eqb_spec k k0) as [->|Hne]; [discriminate|].
  intros H [E|Hin]; [congruence|]. now apply IH.
Qed.

Lemma get_In (k : string) (v : Mention) (m : mentions_t) :
  List.NoDup (map fst m) -> In (k, v) m -> get k m = Some v.
Proof.
  induction m as [|[k0 v0] m IH]; simpl; [tauto|].
  intros Hnd [E|Hin].
  - injection E as -> ->. now rewrite String.eqb_refl.
  - apply List.NoDup_cons_iff in Hnd as [Hk0 Hnd].
    destruct (String.eqb_spec k k0) as [->|Hne]; [|now apply IH].
    exfalso. apply Hk0. apply in_map_iff. now exists (k0, v).
Qed.

Lemma bump_keys (post : Post) (m : mentions_t) (tk : string) :
  List.NoDup (map fst m) -> List.NoDup (map fst (bump post m tk)).
Proof.
  intros Hm. unfold bump. rewrite update_keys.
  destruct (get tk m) eqn:E; [exact Hm|].
  rewrite map_app. simpl. apply get_None in E.
  apply List.NoDup_rev in Hm. rewrite <- (rev_involutive (map fst m ++ [tk])).
  apply List.NoDup_rev. rewrite rev_app_distr. simpl.
  constructor; [|exact Hm]. now rewrite <- in_rev.
Qed.

(** The keys of the [mentions] object are distinct. *)
Lemma aggregate_keys (children : list (option Post)) :
  List.NoDup (map fst (aggregate children)).
Proof.
  assert (Hb : forall post l m, List.NoDup (map fst m) ->
                                List.NoDup (map fst (fold_left (bump post) l m))).
  { intros post. induction l as [|tk l IH]; intros m Hm; simpl; [exact Hm|].
    now apply IH, bump_keys. }
  assert (Hv : forall l m, List.NoDup (map fst m) ->
                           List.NoDup (map fst (fold_left visit l m))).
  { induction l as [|child l IH]; intros m Hm; simpl; [exact Hm|].
    apply IH. destruct child as [post|]; [|exact Hm]. unfold visit.
    destruct (stickied post); [exact Hm|]. now apply Hb. }
  apply Hv. constructor.
Qed.

(** Every entry of the ranked list carries the Mention that the
    specification defines for its ticker. *)
Lemma ranked_mention (children : list (option Post)) (e : Ranked) :
  In e (rank (aggregate children)) ->
  spec_mention (ticker (mention e)) children = Some (mention e).
Proof.
  intros He. unfold rank in He.
  apply In_firstn, sort_desc_In, in_map_iff in He.
  destruct He as (v & <- & Hv). apply in_map_iff in Hv as ([k v'] & E & Hin).
  simpl in E. subst v'. cbn [mention weigh].
  apply get_In in Hin; [|apply aggregate_keys].
  rewrite aggregate_get in Hin.
  assert (Hk : ticker v = k).
  { unfold spec_mention in Hin. destruct (mentioning k children); [discriminate|].
    now injection Hin as <-. }
  now rewrite Hk.
Qed.



(** ** The edge handler *)

Lemma handler_try_throws (net : outcome reply) (msg : string) :
  handler_try net = Threw msg <->
  net = Threw msg
  \/ exists r, net = Returned r /\ ok r = true
       /\ (json r = Threw msg
           \/ (json r = Returned NotIterable /\ msg = "children is not iterable")).
Proof.
  unfold handler_try.
  destruct net as [[[] st [[| |l]|m]]|m]; simpl; split;
    try discriminate; try (intros [= <-]); eauto 8;
    intros [H|(r & H & Hok & [Hj|[Hj ->]])]; simplify_eq/=; done.
Qed.

(** C10: the handler answers 200 in every case; a non-success upstream reply
    and every exception (a rejected fetch, a body that does not parse, a
    listing that cannot be iterated) give the body with no tickers and the
    message. *)
Theorem handler_always_200 (net : outcome reply) :
  resp_status (handler net) = 200
  /\ (forall r, net = Returned r -> ok r = false ->
        handler net = error_response ("Reddit returned " ++ show_Z (status r)))
  /\ (forall msg, handler_try net = Threw msg -> handler net = error_response msg)
  /\ (forall msg, net = Threw msg -> handler net = error_response msg)
  /\ (forall r msg, net = Returned r -> ok r = true -> json r = Threw msg ->
        handler net = error_response msg)
  /\ (forall r, net = Returned r -> ok r = true -> json r = Returned NotIterable ->
        handler net = error_response "children is not iterable").
Proof.
  assert (Hthrow : forall msg, handler_try net = Threw msg ->
                               handler net = error_response msg).
  { intros msg H. unfold handler. now rewrite H. }
  split; [|split; [|split; [exact Hthrow|repeat split]]].
  - unfold handler, handler_try.
    destruct net as [[[] st [[| |l]|m]]|m]; reflexivity.
  - intros r -> Hok. unfold handler, handler_try. simpl. now rewrite Hok.
  - intros msg ->. now apply Hthrow.
  - intros r msg -> Hok Hj. apply Hthrow, handler_try_throws. right. eauto.
  - intros r -> Hok Hj. apply Hthrow, handler_try_throws. right. eauto 6.
Qed.

Lemma handler_always_200_witness :
  handler reply_429 = error_response "Reddit returned 429"
  /\ handler reply_bad_json = error_response "Unexpected token <"
  /\ handler (Threw "fetch failed") = error_response "fetch failed".
Proof.
  pose proof (handler_always_200 reply_429) as (_ & H1 & _).
  pose proof (handler_always_200 reply_bad_json) as (_ & _ & _ & _ & H2 & _).
  pose proof (handler_always_200 (Threw "fetch failed")) as (_ & _ & _ & H3 & _).
  split; [|split].
  - exact (H1 _ eq_refl eq_refl).
  - exact (H2 _ _ eq_refl eq_refl eq_refl).
  - exact (H3 _ eq_refl).
Defined.

(** ** Composite score and signal *)




(** C2: the five bands partition the integers, so the first-match cascade
    is a total function with disjoint cases; the documented boundary values
    fall where the specification puts them. *)
Theorem signal_bands :
  (forall c : Z,
     (signal_of c = strong_buy <-> 75 <= c)
     /\ (signal_of c = buy <-> 60 <= c <= 74)
     /\ (signal_of c = hold <-> 41 <= c <= 59)
     /\ (signal_of c = sell <-> 26 <= c <= 40)
     /\ (signal_of c = strong_sell <-> c <= 25))
  /\ signal_of 75 = strong_buy /\ signal_of 74 = buy /\ signal_of 60 = buy
  /\ signal_of 59 = hold /\ signal_of 41 = hold /\ signal_of 40 = sell
  /\ signal_of 26 = sell /\ signal_of 25 = strong_sell.
Proof.
  split; [|repeat split].
  intros c. unfold signal_of.
  destruct (Z.geb_spec c 75); [repeat split; intros; try discriminate; lia|].
  destruct (Z.geb_spec c 60); [repeat split; intros; try discriminate; lia|].
  destruct (Z.leb_spec c 25); [repeat split; intros; try discriminate; lia|].
  destruct (Z.leb_spec c 40); repeat split; intros; try discriminate; lia.
Qed.

Lemma or_default_range (x : option Q) :
  score_ok x -> (0 < or_default x 50 <= 100)%Q.
Proof.
  destruct x as [q|]; simpl; [|intros _; lra].
  intros [Hlo Hhi]. destruct (Qeq_bool q 0) eqn:E; [lra|].
  apply Qeq_bool_neq in E. split; [|exact Hhi].
  apply Qle_lteq in Hlo. destruct Hlo as [Hlt|Heq]; [exact Hlt|].
  exfalso. apply E. symmetry. exact Heq.
Qed.

Lemma Math_round_between (x : Q) (a b : Z) :
  (inject_Z a <= x <= inject_Z b)%Q -> a <= Math_round x <= b.
Proof.
  intros [Ha Hb]. unfold Math_round. split.
  - rewrite <- (Qfloor_Z a). apply Qfloor_resp_le. lra.
  - assert (H : Qfloor (x + (1 # 2)) < b + 1); [|lia].
    rewrite Zlt_Qlt, inject_Z_plus.
    pose proof (Qfloor_le (x + (1 # 2))) as Hfl.
    change (inject_Z 1) with 1%Q. lra.
Qed.

(** C4: with every supplied score within 0..100 the composite score, an
    integer by construction, lies within 0..100; it even stays within
    10..90, the sentiment term being the constant 10. *)
Theorem composite_in_range (f : Fundamental) (t : Technical) (r : Risk) :
  score_ok (f_score f) -> score_ok (t_score t) -> score_ok (r_score r) ->
  0 <= composite f t r <= 100 /\ 10 <= composite f t r <= 90.
Proof.
  intros Hf Ht Hr.
  apply or_default_range in Hf, Ht, Hr.
  assert (H : 10 <= composite f t r <= 90); [|lia].
  unfold composite. apply Math_round_between.
  change (inject_Z 10) with 10%Q. change (inject_Z 90) with 90%Q.
  split; lra.
Qed.

Lemma composite_in_range_witness :
  0 <= composite
         {| f_score := Some 100%Q; trailing_pe := None; revenue_growth_yoy := None;
            debt_to_equity := None; dcf_upside_pct := None |}
         {| t_score := Some 0%Q; trend_signal := None |}
         no_risk <= 100.
Proof.
  apply composite_in_range; simpl; try exact I; split; discriminate.
Defined.

(** ** Recommendation synthesis *)

Lemma or_default_null_zero (b : bool) (x : option Q) (d : Q) :
  or_default (zero_to_null_when b x) d = or_default x d.
Proof.
  destruct b, x as [q|]; simpl; try reflexivity.
  destruct (Qeq_bool q 0) eqn:E; simpl; now rewrite ?E.
Qed.

Lemma and_gt_null_zero (b : bool) (x : option Q) (c : Q) :
  and_gt (zero_to_null_when b x) c = and_gt x c.
Proof.
  destruct b, x as [q|]; simpl; try reflexivity.
  destruct (Qeq_bool q 0) eqn:E; simpl; now rewrite ?E.
Qed.

Section Synthesis_properties.

Variable NumberToString : Q -> string.

Lemma thesis_parts_null_zero (bf bp : bool) (f : Fundamental) (t : Technical) (r : Risk) :
  thesis_parts NumberToString
    {| f_score := zero_to_null_when bf (f_score f);
       trailing_pe := zero_to_null_when bp (trailing_pe f);
       revenue_growth_yoy := revenue_growth_yoy f;
       debt_to_equity := debt_to_equity f;
       dcf_upside_pct := dcf_upside_pct f |} t r
  = thesis_parts NumberToString f t r.
Proof.
  unfold thesis_parts. cbn [trailing_pe revenue_growth_yoy].
  destruct bp, (trailing_pe f) as [pe|]; cbn [zero_to_null_when zero_to_null];
    try reflexivity.
  cbn [truthy]. destruct (Qeq_bool pe 0) eqn:E; cbn [negb truthy];
    rewrite ?E; reflexivity.
Qed.

Lemma bear_of_null_zero (bf bp : bool) (f : Fundamental) (t : Technical) (r : Risk) :
  bear_of NumberToString
    {| f_score := zero_to_null_when bf (f_score f);
       trailing_pe := zero_to_null_when bp (trailing_pe f);
       revenue_growth_yoy := revenue_growth_yoy f;
       debt_to_equity := debt_to_equity f;
       dcf_upside_pct := dcf_upside_pct f |} t r
  = bear_of NumberToString f t r.
Proof.
  unfold bear_of. cbn [trailing_pe].
  destruct bp, (trailing_pe f) as [pe|]; cbn [zero_to_null_when zero_to_null];
    try reflexivity.
  cbn [and_gt]. destruct (Qeq_bool pe 0) eqn:E; cbn [negb andb and_gt];
    rewrite ?E; reflexivity.
Qed.

(** C9: a zero in [f.score], [t.score], [r.score] or [f.trailing_pe] is read
    as a missing value: replacing any of these zeros by [null] leaves the
    composite score, signal, thesis, bull and bear cases, risk flags (and
    ticker and rank) of the recommendation unchanged. *)
Theorem zero_reads_as_null (tk : string) (i : nat) (d : Detail) (bf bp bt br : bool) :
  recommendation_of (synthesize NumberToString tk i (null_zeros bf bp bt br d))
  = recommendation_of (synthesize NumberToString tk i d).
Proof.
  unfold recommendation_of, synthesize.
  destruct d as [[f|] [t|] [r|]];
    cbn -[thesis_parts bear_of flags_of bull_of composite thesis_of str_or join
          signal_of Z.add];
    rewrite ?thesis_parts_null_zero, ?bear_of_null_zero;
    unfold composite, flags_of, bull_of;
    cbn [f_score t_score r_score trailing_pe revenue_growth_yoy debt_to_equity
         dcf_upside_pct volatility_annual max_drawdown trend_signal];
    rewrite ?or_default_null_zero, ?and_gt_null_zero; reflexivity.
Qed.

End Synthesis_properties.

(** ** The revenue clause of the thesis *)

Section Synthesis_format.

Variable NumberToString : Q -> string.



End Synthesis_format.



(** ** The per-ticker loop *)

Lemma keys_put (k k' : string) (v : Rec) (m : list (string * Rec)) :
  In k (keys (put k' v m)) <-> k = k' \/ In k (keys m).
Proof.
  unfold keys. induction m as [|[k0 v0] m IH]; simpl.
  - intuition congruence.
  - destruct (String.eqb_spec k' k0) as [->|Hne]; simpl; [intuition congruence|].
    rewrite IH. tauto.
Qed.

Lemma keyed_put (k : string) (v : Rec) (m : list (string * Rec)) :
  rec_ticker v = k -> keyed m -> keyed (put k v m).
Proof.
  intros Hv. unfold keyed. induction m as [|[k0 v0] m IH]; simpl; intros Hm.
  - constructor; [exact Hv|constructor].
  - inversion_clear Hm as [|? ? H0 Hm'].
    destruct (String.eqb_spec k k0) as [->|Hne]; constructor; auto.
Qed.

Lemma keyed_tickers (m : list (string * Rec)) :
  keyed m -> map rec_ticker (map snd m) = keys m.
Proof.
  unfold keyed, keys. induction 1 as [|[k v] m H _ IH]; simpl; [reflexivity|].
  simpl in H. now rewrite H, IH.
Qed.

Section Orchestration.

Variable NumberToString : Q -> string.
Variable fetchStockDetail : nat -> string -> outcome (option Detail).

Local Abbreviation analyse' := (analyse NumberToString fetchStockDetail).
Local Abbreviation iteration' := (iteration NumberToString fetchStockDetail).
Local Abbreviation loop' := (loop NumberToString fetchStockDetail).
Local Abbreviation runAnalysis' := (runAnalysis NumberToString fetchStockDetail).

Lemma analyse_ticker (i : nat) (tk : string) (rec : Rec) :
  analyse' i tk = Returned rec -> rec_ticker rec = tk.
Proof.
  unfold analyse. destruct (fetchStockDetail i tk) as [[d|]|msg]; simpl;
    try discriminate.
  now intros [= <-].
Qed.

(** One turn changes [stocks] only when the ticker's analysis returned, and
    always shows its progress line. *)
Lemma iteration_stocks (n i : nat) (e : Ranked) (st : app) :
  stocks (iteration' n i e st)
  = match analyse' i (ticker (mention e)) with
    | Returned rec => put (ticker (mention e)) rec (stocks st)
    | Threw _ => stocks st
    end.
Proof.
  unfold iteration.
  destruct (analyse' i (ticker (mention e))); reflexivity.
Qed.

Lemma iteration_progress (n i : nat) (e : Ranked) (st : app) :
  progress_shown (iteration' n i e st)
  = (progress_shown st ++ [analysing (ticker (mention e)) i n])%list.
Proof.
  unfold iteration.
  destruct (analyse' i (ticker (mention e))); reflexivity.
Qed.

Lemma loop_keys (n : nat) (tickers : list Ranked) (i : nat) (st : app) (k : string) :
  In k (keys (stocks (loop' n i tickers st))) <->
  In k (keys (stocks st))
  \/ exists j e rec, tickers !! j = Some e /\ ticker (mention e) = k
                     /\ analyse' (i + j) k = Returned rec.
Proof.
  revert i st. induction tickers as [|e tickers IH]; intros i st; simpl.
  - split; [auto|]. intros [H|(j & e & rec & H & _)]; [exact H|].
    destruct j; discriminate.
  - rewrite IH, iteration_stocks. split.
    + intros [H|(j & e' & rec & Hj & Hk & Ha)].
      * destruct (analyse' i (ticker (mention e))) as [rec|msg] eqn:Ha; [|auto].
        apply keys_put in H as [->|H]; [|auto].
        right. exists 0%nat, e, rec. now rewrite Nat.add_0_r.
      * right. exists (S j), e', rec. now rewrite Nat.add_succ_r.
    + intros [H|(j & e' & rec & Hj & Hk & Ha)].
      * left. destruct (analyse' i (ticker (mention e))); [|exact H].
        apply keys_put. auto.
      * destruct j as [|j]; simpl in Hj.
        -- injection Hj as <-. subst k. rewrite Nat.add_0_r in Ha. rewrite Ha.
           left. apply keys_put. auto.
        -- right. exists j, e', rec. now rewrite Nat.add_succ_r in Ha.
Qed.

Lemma loop_keyed (n : nat) (tickers : list Ranked) (i : nat) (st : app) :
  keyed (stocks st) -> keyed (stocks (loop' n i tickers st)).
Proof.
  revert i st. induction tickers as [|e tickers IH]; intros i st Hst; simpl;
    [exact Hst|].
  apply IH. rewrite iteration_stocks.
  destruct (analyse' i (ticker (mention e))) as [rec|msg] eqn:Ha; [|exact Hst].
  apply keyed_put; [|exact Hst]. now apply analyse_ticker in Ha.
Qed.

Lemma loop_progress (n : nat) (tickers : list Ranked) (i : nat) (st : app) :
  progress_shown (loop' n i tickers st)
  = (progress_shown st
     ++ imap (fun j e => analysing (ticker (mention e)) (i + j) n) tickers)%list.
Proof.
  revert i st. induction tickers as [|e tickers IH]; intros i st; simpl.
  - now rewrite app_nil_r.
  - rewrite IH, iteration_progress, <- app_assoc. simpl.
    rewrite Nat.add_0_r. do 2 f_equal.
    apply imap_ext. intros j e' _. simpl. now rewrite Nat.add_succ_r.
Qed.

(** The stocks at the end of a run, whatever it started from. *)
Lemma runAnalysis_stocks (trend : outcome (list Ranked)) (st : app) :
  exists st0,
    stocks st0 = [] /\
    stocks (runAnalysis' trend st)
    = stocks (loop' (length (attempted trend)) 0 (attempted trend) st0).
Proof.
  unfold runAnalysis. destruct trend as [data|msg]; simpl attempted.
  - destruct (firstn 8 data) as [|e l] eqn:E; simpl.
    + exists initial. split; reflexivity.
    + eexists; split; [|reflexivity]. reflexivity.
  - exists initial. split; reflexivity.
Qed.

Lemma recommendations_tickers (trend : outcome (list Ranked)) (st : app) (k : string) :
  In k (map rec_ticker (recommendations (runAnalysis' trend st))) <->
  exists j e rec, attempted trend !! j = Some e /\ ticker (mention e) = k
                  /\ analyse' j k = Returned rec.
Proof.
  destruct (runAnalysis_stocks trend st) as (st0 & Hempty & Hst).
  assert (Hperm : Permutation
                    (map rec_ticker (recommendations (runAnalysis' trend st)))
                    (keys (stocks (runAnalysis' trend st)))).
  { unfold recommendations. rewrite sort_desc_perm, keyed_tickers; [reflexivity|].
    rewrite Hst. apply loop_keyed. rewrite Hempty. constructor. }
  split.
  - intros H. eapply Permutation_in in H; [|exact Hperm].
    rewrite Hst in H. apply loop_keys in H. rewrite Hempty in H.
    destruct H as [H|H]; [destruct H|exact H].
  - intros H. eapply Permutation_in; [symmetry; exact Hperm|].
    rewrite Hst. apply loop_keys. right. exact H.
Qed.

(** C3: a ticker whose analysis throws, in the provider call or in the
    synthesis, is absent from the final recommendations; every ticker whose
    analysis returns is present, wherever the failures fall; and the run
    shows the progress line of every attempted ticker in rank order. *)
Theorem failed_ticker_is_skipped (trend : outcome (list Ranked)) (st : app) :
  let tickers := attempted trend in
  let final := runAnalysis' trend st in
  (forall t,
     (forall j e, tickers !! j = Some e -> ticker (mention e) = t ->
                  exists msg, analyse' j t = Threw msg) ->
     ~ In t (map rec_ticker (recommendations final)))
  /\ (forall j e rec,
        tickers !! j = Some e -> analyse' j (ticker (mention e)) = Returned rec ->
        In (ticker (mention e)) (map rec_ticker (recommendations final)))
  /\ (tickers <> [] ->
      progress_shown final
      = (progress_shown st
         ++ ["Scanning r/WallStreetBets for trending stocks..."]
         ++ imap (fun j e => analysing (ticker (mention e)) j (length tickers)) tickers
         ++ [""])%list).
Proof.
  intros tickers final. split; [|split].
  - intros t Hfail Hin. apply recommendations_tickers in Hin.
    destruct Hin as (j & e & rec & Hj & Hk & Ha).
    destruct (Hfail j e Hj Hk) as [msg Hmsg]. congruence.
  - intros j e rec Hj Ha. apply recommendations_tickers. exists j, e, rec. auto.
  - subst tickers final. unfold runAnalysis.
    destruct trend as [data|msg]; simpl attempted; [|congruence].
    destruct (firstn 8 data) as [|e l] eqn:E; [congruence|]. intros _.
    cbn [length Nat.eqb setLoading setProgress progress_shown].
    rewrite loop_progress. cbn [setTrending setStocks setError setLoading
                                 setProgress progress_shown].
    now rewrite <- !app_assoc.
Qed.

End Orchestration.

Lemma failed_ticker_is_skipped_witness :
  let final := runAnalysis no_exponent sample_provider sample_trend initial in
  ~ In "GME" (map rec_ticker (recommendations final))
  /\ In "NVDA" (map rec_ticker (recommendations final))
  /\ progress_shown final
     = ["Scanning r/WallStreetBets for trending stocks...";
        "Analyzing GME... (1/3)"; "Analyzing AMC... (2/3)"; "Analyzing NVDA... (3/3)";
        ""].
Proof.
  destruct (failed_ticker_is_skipped no_exponent sample_provider sample_trend initial)
    as (Hskip & Hkeep & Hshown).
  split; [|split].
  - apply Hskip. intros j e _ _. eexists. reflexivity.
  - exact (Hkeep 2%nat (sample_ranked "NVDA") _ eq_refl eq_refl).
  - apply Hshown. discriminate.
Defined.

(** * Further properties of the code *)

(** ** What [extractTickers] returns *)

Lemma exec_BARE_TICKER_RE_inv (s m : mstate) :
  exec_at BARE_TICKER_RE s = Some m ->
  exists w, cap m = Some w /\ (2 <= length w <= 5)%nat
            /\ forallb is_upper w = true
            /\ rest s = (w ++ rest m)%list.
Proof.
  unfold exec_at, BARE_TICKER_RE. cbn [run].
  destruct (at_boundary _); [|discriminate].
  intros H. apply group_capture in H. cbn [rest] in H.
  destruct H as (w & Hcap & Hlen & Hall & ->). eauto 6.
Qed.

(** Every match that [scan] reports lies in the text that was left to read. *)
Lemma scan_occurs (r : re) :
  (forall s m, exec_at r s = Some m ->
     exists pre, rest s = (pre ++ list_ascii_of_string (group1 m) ++ rest m)%list) ->
  forall (fuel : nat) (s : mstate) (w : string),
    In w (scan fuel r s) ->
    exists pre post, rest s = (pre ++ list_ascii_of_string w ++ post)%list.
Proof.
  intros Hexec. induction fuel as [|fuel IH]; intros s w; simpl; [tauto|].
  assert (Hstep : In w match step_over s with
                       | Some s' => scan fuel r s'
                       | None => []
                       end ->
                  exists pre post, rest s = (pre ++ list_ascii_of_string w ++ post)%list).
  { unfold step_over. destruct (rest s) as [|a t]; [intros []|].
    intros H. apply IH in H as (pre & post & E). simpl in E.
    exists (a :: pre), post. now rewrite E. }
  destruct (exec_at r s) as [m|] eqn:Hm; [|exact Hstep].
  intros [<-|H].
  - destruct (Hexec s m Hm) as [pre E]. eauto.
  - destruct (Nat.ltb_spec (length (rest m)) (length (rest s))); [|now apply Hstep].
    apply IH in H as (pre' & post' & E').
    destruct (Hexec s m Hm) as [pre E]. rewrite E, E'.
    exists (pre ++ list_ascii_of_string (group1 m) ++ pre')%list, post'.
    now rewrite <- !app_assoc.
Qed.

Lemma list_of_inj (a b : string) :
  list_ascii_of_string a = list_ascii_of_string b -> a = b.
Proof.
  intros E. rewrite <- (string_of_list_ascii_of_string a), E.
  apply string_of_list_ascii_of_string.
Qed.

Lemma extracted_ticker_occurs_list (text w : string) :
  In w (matchAll TICKER_RE text) \/ In w (matchAll BARE_TICKER_RE text) ->
  exists pre post,
    list_ascii_of_string text = (pre ++ list_ascii_of_string w ++ post)%list.
Proof.
  unfold matchAll. intros [H|H].
  - apply scan_occurs in H; [exact H|].
    intros s m Hm. apply exec_TICKER_RE_inv in Hm as (u & Hcap & _ & _ & E).
    exists ["$"%char]. unfold group1.
    now rewrite Hcap, list_ascii_of_string_of_list_ascii, E.
  - apply scan_occurs in H; [exact H|].
    intros s m Hm. apply exec_BARE_TICKER_RE_inv in Hm as (u & Hcap & _ & _ & E).
    exists []. unfold group1.
    now rewrite Hcap, list_ascii_of_string_of_list_ascii, E.
Qed.

Lemma matchAll_occurs (text w : string) :
  In w (matchAll TICKER_RE text) \/ In w (matchAll BARE_TICKER_RE text) ->
  occurs w text.
Proof.
  intros H. apply extracted_ticker_occurs_list in H as (pre & post & E).
  exists (string_of_list_ascii pre), (string_of_list_ascii post).
  apply list_of_inj.
  now rewrite E, !list_of_append, !list_ascii_of_string_of_list_ascii.
Qed.


(** X2: every ticker that [extractTickers] returns is written in the text:
    the text is some prefix, the ticker, and some suffix. *)
Theorem extracted_ticker_occurs (text w : string) :
  In w (extractTickers text) -> occurs w text.
Proof.
  intros H. apply extractTickers_In in H as [H _]. now apply matchAll_occurs.
Qed.

Lemma extracted_ticker_occurs_witness : occurs "GME" "Loading up on $GME today".
Proof.
  apply extracted_ticker_occurs. vm_compute. left. reflexivity.
Defined.

Lemma extracted_shape (text w : string) :
  In w (extractTickers text) -> ticker_shape w /\ in_lexicon w = false.
Proof.
  intros H. apply extractTickers_In in H as [H Hlex]. split; [|exact Hlex].
  destruct H as [H|H].
  - eapply List.Forall_forall in H; [exact H|].
    apply scan_Forall, exec_TICKER_RE.
  - eapply List.Forall_forall in H; [exact H|].
    apply scan_Forall, exec_BARE_TICKER_RE.
Qed.

(** X3: a text without a capital letter, the empty text included, yields no
    ticker. *)
Theorem no_capital_no_ticker (text : string) :
  has_capital text = false -> extractTickers text = [].
Proof.
  intros Hcap. destruct (extractTickers text) as [|w l] eqn:E; [reflexivity|].
  exfalso.
  assert (Hin : In w (extractTickers text)) by (rewrite E; now left).
  destruct (extracted_shape text w Hin) as [[Hlen Hup] _].
  destruct (extracted_ticker_occurs_list text w) as (pre & post & Ht);
    [now apply extractTickers_In in Hin as [Hin' _]|].
  unfold has_capital in Hcap. rewrite Ht, !existsb_app in Hcap.
  destruct (list_ascii_of_string w) as [|c u]; [simpl in Hlen; lia|].
  simpl in Hup, Hcap. apply andb_true_iff in Hup as [Hc _].
  rewrite Hc in Hcap. simpl in Hcap.
  now rewrite orb_true_r in Hcap.
Qed.

Lemma no_capital_no_ticker_witness : extractTickers "" = [].
Proof. apply no_capital_no_ticker. reflexivity. Defined.

(** X4: a dollar sign followed by one to five capitals that are not a word
    of the lexicon, and then by a non-word character or the end of the text,
    yields that ticker, whatever stands before the dollar sign. *)
Theorem cashtag_in_text_extracted (pre w post : string) :
  ticker_shape w ->
  word_opt (first_char post) = false ->
  w ∉ FALSE_POSITIVES ->
  In w (extractTickers (pre ++ "$" ++ w ++ post)).
Proof.
  intros Hw Hpost Hlex. apply extractTickers_In. split.
  - left. now apply matchAll_finds_cashtag.
  - now apply in_lexicon_spec.
Qed.

Lemma cashtag_in_text_extracted_witness :
  In "F" (extractTickers ("Picked up" ++ "$" ++ "F" ++ ", finally")).
Proof.
  apply cashtag_in_text_extracted.
  - split; [simpl; lia|reflexivity].
  - reflexivity.
  - apply in_lexicon_spec. vm_compute. reflexivity.
Defined.

(** At a run of two to five capitals with no word character before it and
    none after it, the bare pattern matches and captures the run. *)
Lemma exec_BARE_TICKER_RE_hit (w t : list ascii) (s : mstate) :
  rest s = (w ++ t)%list -> word_opt (prev s) = false ->
  (2 <= length w <= 5)%nat -> forallb is_upper w = true ->
  word_opt (head t) = false ->
  exists m, exec_at BARE_TICKER_RE s = Some m /\ cap m = Some w /\ rest m = t.
Proof.
  intros Hrest Hprev Hlen Hall Ht.
  assert (Hne : w <> []) by (destruct w; [simpl in Hlen; lia|discriminate]).
  unfold exec_at, BARE_TICKER_RE. cbn [run].
  set (s0 := MState (prev s) (rest s) None).
  assert (Hb : at_boundary s0 = true).
  { unfold at_boundary, s0. cbn [prev rest]. rewrite Hrest, Hprev.
    destruct w as [|c w]; [congruence|]. simpl in Hall |- *.
    apply andb_true_iff in Hall as [Hc _]. unfold is_word.
    unfold is_upper in Hc. now rewrite Hc. }
  rewrite Hb.
  exists (MState (prev (after w t s0)) t (Some w)).
  split; [|split; reflexivity].
  apply rep_range_greedy with (w := w) (t := t); auto.
  - destruct t as [|c t]; [exact I|]. simpl in Ht. unfold is_word in Ht.
    destruct (in_range "A" "Z" c); [discriminate|reflexivity].
  - rewrite (consumed_after w t s0 Hrest).
    change (rest (after w t s0)) with t.
    unfold at_boundary. cbn [prev rest].
    now rewrite after_prev_upper, Ht.
Qed.

(** A run of capitals in front of a text that holds a character which is
    not a capital ends before it. *)
Lemma capitals_before (c : ascii) (u t p q : list ascii) :
  is_upper c = false ->
  forallb is_upper u = true ->
  (u ++ t)%list = (p ++ c :: q)%list ->
  exists p', p = (u ++ p')%list /\ t = (p' ++ c :: q)%list.
Proof.
  intros Hc. revert p. induction u as [|a u IH]; intros p Hall E; [exists p; auto|].
  simpl in Hall. apply andb_true_iff in Hall as [Ha Hall].
  destruct p as [|c' p]; simpl in E; injection E as -> E.
  - congruence.
  - destruct (IH p Hall E) as (p' & -> & ->). exists p'. auto.
Qed.

(** [scan] reaches a bare word that starts the text or follows a character
    that is not a word character. *)
Lemma scan_finds_bare (w t : list ascii) :
  (2 <= length w <= 5)%nat -> forallb is_upper w = true ->
  word_opt (head t) = false ->
  forall (fuel : nat) (pre : list ascii) (s : mstate),
    rest s = (pre ++ w ++ t)%list ->
    (pre = [] /\ word_opt (prev s) = false
     \/ exists x c, pre = (x ++ [c])%list /\ is_word c = false) ->
    (length (rest s) < fuel)%nat ->
    In (string_of_list_ascii w) (scan fuel BARE_TICKER_RE s).
Proof.
  intros Hlen Hall Ht. induction fuel as [|fuel IH]; intros pre s Hrest Hpre Hfuel; [lia|].
  simpl. destruct Hpre as [[-> Hprev]|(x & c & -> & Hc)].
  - destruct (exec_BARE_TICKER_RE_hit w t s Hrest Hprev Hlen Hall Ht)
      as (m & -> & Hcap & _).
    left. unfold group1. now rewrite Hcap.
  - assert (Hup : is_upper c = false).
    { unfold is_word in Hc. unfold is_upper.
      destruct (in_range "A" "Z" c); [discriminate|reflexivity]. }
    rewrite <- app_assoc in Hrest. cbn [List.app] in Hrest.
    assert (Hstep : In (string_of_list_ascii w)
                      match step_over s with
                      | Some s' => scan fuel BARE_TICKER_RE s'
                      | None => []
                      end).
    { unfold step_over. rewrite Hrest. destruct x as [|a x]; cbn [List.app].
      - apply (IH []); [reflexivity| |rewrite Hrest in Hfuel; simpl in *; lia].
        left. split; [reflexivity|exact Hc].
      - apply (IH (x ++ [c])%list);
          [cbn [rest]; now rewrite <- app_assoc| |rewrite Hrest in Hfuel; simpl in *; lia].
        right. eauto. }
    destruct (exec_at BARE_TICKER_RE s) as [m|] eqn:Hm; [|exact Hstep].
    right. apply exec_BARE_TICKER_RE_inv in Hm as (u & _ & Hu & Hupu & Hs).
    rewrite Hrest in Hs. symmetry in Hs.
    destruct (capitals_before c u (rest m) x (w ++ t)%list Hup Hupu Hs)
      as (x' & -> & Hm).
    assert (Hlt : (length (rest m) < length (rest s))%nat).
    { rewrite Hrest, Hm. rewrite <- !app_assoc, !length_app. lia. }
    apply Nat.ltb_lt in Hlt as Hb. rewrite Hb.
    apply (IH (x' ++ [c])%list);
      [rewrite Hm; now rewrite <- app_assoc| |lia].
    right. eauto.
Qed.

(** X5: a word of two to five capitals that is not in the lexicon, stands at
    the start of the text or after a non-word character, and is followed by
    a non-word character or the end of the text, is extracted. *)
Theorem bare_word_extracted (pre w post : string) :
  ticker_shape w -> (2 <= String.length w)%nat ->
  word_opt (last_char pre) = false ->
  word_opt (first_char post) = false ->
  w ∉ FALSE_POSITIVES ->
  In w (extractTickers (pre ++ w ++ post)).
Proof.
  intros [Hlen Hall] Hlen2 Hpre Hpost Hlex. apply extractTickers_In.
  split; [right|now apply in_lexicon_spec].
  unfold matchAll. rewrite <- (string_of_list_ascii_of_string w) at 1.
  assert (Hl : String.length w = length (list_ascii_of_string w)).
  { clear. induction w as [|c w IH]; simpl; congruence. }
  apply scan_finds_bare with (t := list_ascii_of_string post)
                             (pre := list_ascii_of_string pre); auto.
  - lia.
  - cbn [rest]. now rewrite !list_of_append.
  - unfold last_char in Hpre.
    destruct (rev (list_ascii_of_string pre)) as [|c x] eqn:E.
    + left. split; [|reflexivity].
      apply (f_equal (@rev ascii)) in E. now rewrite rev_involutive in E.
    + right. exists (rev x), c. split; [|exact Hpre].
      apply (f_equal (@rev ascii)) in E. now rewrite rev_involutive in E.
Qed.

Lemma bare_word_extracted_witness :
  In "NVDA" (extractTickers ("Is " ++ "NVDA" ++ " still a buy?")).
Proof.
  apply bare_word_extracted.
  - split; [simpl; lia|reflexivity].
  - simpl. lia.
  - reflexivity.
  - reflexivity.
  - apply in_lexicon_spec. vm_compute. reflexivity.
Defined.

(** ** The stable descending sort *)

Section Sorting_order.
Context {A : Type} (le : A -> A -> bool).
Hypothesis le_total : forall a b, le a b = true \/ le b a = true.
Hypothesis le_trans : forall a b c, le a b = true -> le b c = true -> le a c = true.

(** [a] may stand in front of [b]. *)
Let above (a b : A) : Prop := le b a = true.

Lemma insert_desc_sorted (x : A) (l : list A) :
  StronglySorted above l -> StronglySorted above (insert_desc le x l).
Proof.
  induction 1 as [|y l Hl IH Hy]; simpl.
  - constructor; constructor.
  - destruct (le y x) eqn:E.
    + constructor; [now constructor|].
      constructor; [exact E|].
      eapply List.Forall_impl; [|exact Hy]. intros z Hz. unfold above in *. eauto.
    + constructor; [exact IH|].
      assert (Hxy : above y x) by (destruct (le_total x y); [assumption|congruence]).
      eapply Permutation_Forall; [symmetry; apply insert_desc_perm|].
      constructor; assumption.
Qed.

Lemma sort_desc_sorted (l : list A) : StronglySorted above (sort_desc le l).
Proof.
  induction l as [|x l IH]; simpl; [constructor|]. now apply insert_desc_sorted.
Qed.

Lemma insert_desc_tie (z x : A) (l : list A) :
  List.filter (tie le z) (insert_desc le x l) = List.filter (tie le z) (x :: l).
Proof.
  induction l as [|y l IH]; [reflexivity|]. cbn [insert_desc].
  destruct (le y x) eqn:E; [reflexivity|].
  cbn [List.filter] in *. rewrite IH.
  destruct (tie le z y) eqn:Ty, (tie le z x) eqn:Tx; try reflexivity.
  exfalso. unfold tie in *.
  apply andb_true_iff in Ty as [_ Hyz], Tx as [Hzx _].
  rewrite (le_trans _ _ _ Hyz Hzx) in E. discriminate.
Qed.

Lemma sort_desc_tie (z : A) (l : list A) :
  List.filter (tie le z) (sort_desc le l) = List.filter (tie le z) l.
Proof.
  induction l as [|x l IH]; [reflexivity|]. cbn [sort_desc fold_right].
  fold (sort_desc le l). rewrite insert_desc_tie. cbn [List.filter]. now rewrite IH.
Qed.

(** Sorting a list that is in order leaves it as it is. *)
Lemma sort_desc_sorted_id (l : list A) :
  StronglySorted above l -> sort_desc le l = l.
Proof.
  induction 1 as [|x l Hl IH Hx]; [reflexivity|]. cbn [sort_desc fold_right].
  fold (sort_desc le l). rewrite IH. destruct l as [|y l]; [reflexivity|].
  simpl. inversion Hx as [|? ? Hy _]; subst. unfold above in Hy. now rewrite Hy.
Qed.

Lemma sorted_app_inv (l1 l2 : list A) :
  StronglySorted above (l1 ++ l2) ->
  forall a b, In a l1 -> In b l2 -> above a b.
Proof.
  induction l1 as [|x l1 IH]; simpl; [tauto|].
  intros H a b Ha Hb. inversion H as [|? ? Hl Hx]; subst.
  destruct Ha as [->|Ha]; [|now apply IH].
  rewrite List.Forall_forall in Hx. apply Hx, in_app_iff. now right.
Qed.

End Sorting_order.

Lemma by_weighted_score_total (a b : Ranked) :
  by_weighted_score a b = true \/ by_weighted_score b a = true.
Proof.
  unfold by_weighted_score. rewrite !Qle_bool_iff.
  destruct (Qlt_le_dec (weighted_score b) (weighted_score a)); [right|left]; lra.
Qed.

Lemma by_weighted_score_trans (a b c : Ranked) :
  by_weighted_score a b = true -> by_weighted_score b c = true ->
  by_weighted_score a c = true.
Proof. unfold by_weighted_score. rewrite !Qle_bool_iff. lra. Qed.

Lemma by_score_total (a b : Rec) : by_score a b = true \/ by_score b a = true.
Proof. unfold by_score. rewrite !Z.leb_le. lia. Qed.

Lemma by_score_trans (a b c : Rec) :
  by_score a b = true -> by_score b c = true -> by_score a c = true.
Proof. unfold by_score. rewrite !Z.leb_le. lia. Qed.

(** ** What the aggregation and the ranking return *)

Lemma visit_uncounted (m : mentions_t) (child : option Post) :
  counted child = false -> visit m child = m.
Proof.
  destruct child as [post|]; [|reflexivity]. simpl.
  destruct (stickied post); [reflexivity|discriminate].
Qed.

(** X6: children without [data] and stickied posts leave no trace: the
    aggregation of a listing is that of its other children alone. *)
Theorem aggregate_skips_uncounted (children : list (option Post)) :
  aggregate (List.filter counted children) = aggregate children.
Proof.
  unfold aggregate. generalize (@nil (string * Mention)).
  induction children as [|child children IH]; intros m; [reflexivity|].
  cbn [List.filter fold_left]. destruct (counted child) eqn:E.
  - cbn [fold_left]. apply IH.
  - rewrite (visit_uncounted m child E). apply IH.
Qed.

Lemma mentioning_In (k : string) (children : list (option Post)) (p : Post) :
  In p (mentioning k children) <->
  In (Some p) children /\ stickied p = false
  /\ In k (extractTickers (post_text p)).
Proof.
  induction children as [|[q|] children IH]; simpl.
  - tauto.
  - destruct (stickied q) eqn:Es; simpl.
    + rewrite IH. split; [tauto|]. intros [[E|H] H']; [|tauto].
      injection E as ->. destruct H'. congruence.
    + destruct (names k q) eqn:En; simpl; rewrite IH.
      * apply existsb_eqb_In in En. split.
        -- intros [->|H]; [|tauto]. auto.
        -- intros [[E|H] H']; [injection E as ->; now left|tauto].
      * split; [tauto|]. intros [[E|H] H']; [|tauto].
        injection E as ->. destruct H' as [_ H'].
        apply existsb_eqb_In in H'. unfold names in En. unfold post_text in H'.
        congruence.
  - rewrite IH. split; [tauto|]. intros [[E|H] H']; [discriminate|tauto].
Qed.


Lemma mention_lookup_none (children : list (option Post)) (k : string) :
  get k (aggregate children) = None <->
  forall post, In (Some post) children -> stickied post = false ->
               ~ In k (extractTickers (post_text post)).
Proof.
  rewrite aggregate_get. unfold spec_mention.
  destruct (mentioning k children) as [|p posts] eqn:E.
  - split; [|reflexivity]. intros _ post Hin Hs Hk.
    assert (H : In post (mentioning k children)) by (apply mentioning_In; auto).
    now rewrite E in H.
  - split; [discriminate|]. intros H. exfalso.
    assert (Hp : In p (mentioning k children)) by (rewrite E; now left).
    apply mentioning_In in Hp as (Hin & Hs & Hk). exact (H p Hin Hs Hk).
Qed.


Lemma sort_desc_length {A : Type} (le : A -> A -> bool) (l : list A) :
  length (sort_desc le l) = length l.
Proof. apply Permutation_length, sort_desc_perm. Qed.

Lemma rank_length (m : mentions_t) : length (rank m) = Nat.min 20 (length m).
Proof.
  unfold rank. now rewrite List.length_firstn, sort_desc_length, !length_map.
Qed.

Lemma aggregate_keyed (children : list (option Post)) (k : string) (v : Mention) :
  In (k, v) (aggregate children) -> ticker v = k.
Proof.
  intros Hin. apply get_In in Hin; [|apply aggregate_keys].
  rewrite aggregate_get in Hin. unfold spec_mention in Hin.
  destruct (mentioning k children); [discriminate|]. now injection Hin as <-.
Qed.

Lemma aggregate_tickers (children : list (option Post)) :
  map ticker (map snd (aggregate children)) = map fst (aggregate children).
Proof.
  pose proof (aggregate_keyed children) as H.
  induction (aggregate children) as [|[k v] m IH]; [reflexivity|].
  simpl. rewrite (H k v) by now left. f_equal. apply IH.
  intros k' v' Hin. apply H. now right.
Qed.

Lemma NoDup_firstn {A : Type} (n : nat) (l : list A) :
  List.NoDup l -> List.NoDup (firstn n l).
Proof.
  intros H. rewrite <- (firstn_skipn n l) in H.
  now apply List.NoDup_app_remove_r in H.
Qed.

Lemma rank_NoDup (children : list (option Post)) :
  List.NoDup (map ticker_of (rank (aggregate children))).
Proof.
  unfold rank. rewrite <- firstn_map. apply NoDup_firstn.
  eapply Permutation_NoDup;
    [symmetry; apply Permutation_map, sort_desc_perm|].
  assert (Hmap : forall vs, map ticker_of (map weigh vs) = map ticker vs)
    by (induction vs as [|v vs IHvs]; [reflexivity|]; simpl; now rewrite IHvs).
  rewrite Hmap, aggregate_tickers. apply aggregate_keys.
Qed.

(** X8: the ranked list holds 20 entries, or all of them when fewer tickers
    were seen; its tickers are pairwise distinct, each has the shape of a
    ticker, is outside the lexicon and was mentioned at least once. *)
Theorem rank_size_and_tickers (children : list (option Post)) :
  length (rank (aggregate children)) = Nat.min 20 (length (aggregate children))
  /\ List.NoDup (map ticker_of (rank (aggregate children)))
  /\ forall e, In e (rank (aggregate children)) ->
       test TICKER_SHAPE_RE (ticker_of e) = true
       /\ (ticker_of e ∉ FALSE_POSITIVES)
       /\ 1 <= mention_count (mention e).
Proof.
  split; [apply rank_length|split].
  - apply rank_NoDup.
  - intros e He. apply ranked_mention in He. fold (ticker_of e) in He.
    unfold spec_mention in He.
    destruct (mentioning (ticker_of e) children) as [|p posts] eqn:E; [discriminate|].
    assert (Hp : In p (mentioning (ticker_of e) children)) by (rewrite E; now left).
    apply mentioning_In in Hp as (_ & _ & Hk).
    apply extracted_shape in Hk as [Hshape Hlex].
    split; [now apply ticker_shape_test|split; [now apply in_lexicon_spec|]].
    injection He as He. rewrite <- He. cbn [mention_count length]. lia.
Qed.

Lemma sorted_app_l {A : Type} (R : A -> A -> Prop) (l1 l2 : list A) :
  StronglySorted R (l1 ++ l2) -> StronglySorted R l1.
Proof.
  induction l1 as [|x l1 IH]; simpl; [constructor|].
  intros H. inversion H as [|? ? Hl Hx]; subst. constructor; [now apply IH|].
  apply List.Forall_app in Hx. tauto.
Qed.

Lemma sorted_impl {A : Type} (R R' : A -> A -> Prop) (l : list A) :
  (forall a b, R a b -> R' a b) -> StronglySorted R l -> StronglySorted R' l.
Proof.
  intros HR. induction 1 as [|x l Hl IH Hx]; constructor; [exact IH|].
  eapply List.Forall_impl; [|exact Hx]. auto.
Qed.

(** X9: the ranked list is in descending order of weighted score, and what
    the cut at 20 leaves out weighs no more than anything it keeps. *)
Theorem rank_sorted_top (m : mentions_t) :
  StronglySorted (fun a b => (weighted_score b <= weighted_score a)%Q) (rank m)
  /\ exists dropped,
       Permutation (rank m ++ dropped) (map weigh (map snd m))
       /\ forall a b, In a (rank m) -> In b dropped ->
                      (weighted_score b <= weighted_score a)%Q.
Proof.
  pose proof (sort_desc_sorted by_weighted_score by_weighted_score_total
                by_weighted_score_trans (map weigh (map snd m))) as Hs.
  rewrite <- (firstn_skipn 20) in Hs. fold (rank m) in Hs.
  split.
  - apply sorted_app_l in Hs. eapply sorted_impl; [|exact Hs].
    intros a b H. now apply Qle_bool_iff.
  - exists (skipn 20 (sort_desc by_weighted_score (map weigh (map snd m)))). split.
    + unfold rank. rewrite firstn_skipn. apply sort_desc_perm.
    + intros a b Ha Hb. apply Qle_bool_iff.
      exact (sorted_app_inv by_weighted_score _ _ Hs a b Ha Hb).
Qed.


(** The ranked list is empty exactly when no counted post yields a ticker;
    an empty listing is one such case. *)
Lemma rank_empty_iff (children : list (option Post)) :
  rank (aggregate children) = [] <->
  forall post, In (Some post) children -> stickied post = false ->
               extractTickers (post_text post) = [].
Proof.
  assert (Hnil : rank (aggregate children) = [] <-> aggregate children = []).
  { split; [|now intros ->].
    intros H. apply (f_equal (@length Ranked)) in H. rewrite rank_length in H.
    destruct (aggregate children); [reflexivity|simpl in H; lia]. }
  rewrite Hnil. split.
  - intros Hagg post Hin Hs.
    destruct (extractTickers (post_text post)) as [|k l] eqn:E; [reflexivity|].
    exfalso.
    assert (Hnone : get k (aggregate children) = None) by now rewrite Hagg.
    apply (proj1 (mention_lookup_none children k) Hnone post Hin Hs).
    rewrite E. now left.
  - clear Hnil. intros H. unfold aggregate. generalize (@nil (string * Mention)).
    induction children as [|child children IH]; intros m; [reflexivity|].
    cbn [fold_left].
    assert (Hv : visit m child = m).
    { destruct child as [post|]; [|reflexivity]. unfold visit.
      destruct (stickied post) eqn:Es; [reflexivity|].
      cbv zeta. fold (post_text post).
      now rewrite (H post (or_introl eq_refl) Es). }
    rewrite Hv. apply IH. intros post Hin. apply H. now right.
Qed.

(** ** What a run leaves behind *)

Lemma put_In (k k' : string) (v v' : Rec) (m : list (string * Rec)) :
  In (k, v) (put k' v' m) -> (k, v) = (k', v') \/ In (k, v) m.
Proof.
  induction m as [|[k0 v0] m IH]; simpl; [intuition congruence|].
  destruct (String.eqb_spec k' k0) as [->|Hne]; simpl.
  - intros [[= <- <-]|H]; auto.
  - intros [H|H]; [auto|]. apply IH in H. tauto.
Qed.

Lemma put_keys (k : string) (v : Rec) (m : list (string * Rec)) :
  keys (put k v m) = if existsb (String.eqb k) (keys m) then keys m
                     else (keys m ++ [k])%list.
Proof.
  unfold keys. induction m as [|[k0 v0] m IH]; simpl; [reflexivity|].
  destruct (String.eqb_spec k k0) as [->|Hne]; simpl; [reflexivity|].
  rewrite IH. now destruct (existsb (String.eqb k) (map fst m)).
Qed.

Lemma put_NoDup (k : string) (v : Rec) (m : list (string * Rec)) :
  List.NoDup (keys m) -> List.NoDup (keys (put k v m)).
Proof.
  intros Hm. rewrite put_keys. destruct (existsb (String.eqb k) (keys m)) eqn:E;
    [exact Hm|].
  apply List.NoDup_rev in Hm. rewrite <- (rev_involutive (keys m ++ [k])).
  apply List.NoDup_rev. rewrite rev_app_distr. simpl.
  constructor; [|exact Hm]. rewrite <- in_rev. intros Hin.
  apply existsb_eqb_In in Hin. congruence.
Qed.

Lemma put_length (k : string) (v : Rec) (m : list (string * Rec)) :
  ~ In k (keys m) -> length (put k v m) = S (length m).
Proof.
  intros Hk. rewrite <- (length_map fst (put k v m)). fold (keys (put k v m)).
  rewrite put_keys. destruct (existsb (String.eqb k) (keys m)) eqn:E.
  - apply existsb_eqb_In in E. contradiction.
  - unfold keys. rewrite length_app, length_map. simpl. lia.
Qed.

Section Run.

Variable NumberToString : Q -> string.
Variable provider : nat -> string -> outcome (option Detail).

Local Abbreviation analyse_ := (analyse NumberToString provider).
Local Abbreviation iteration_ := (iteration NumberToString provider).
Local Abbreviation loop_ := (loop NumberToString provider).
Local Abbreviation runAnalysis_ := (runAnalysis NumberToString provider).

Lemma analyse_inv (i : nat) (tk : string) (rec : Rec) :
  analyse_ i tk = Returned rec ->
  exists d, provider i tk = Returned (Some d) /\ rec = synthesize NumberToString tk i d.
Proof.
  unfold analyse. destruct (provider i tk) as [[d|]|msg]; simpl; try discriminate.
  intros [= <-]. eauto.
Qed.

Lemma iteration_console (n i : nat) (e : Ranked) (st : app) :
  console (iteration_ n i e st)
  = match analyse_ i (ticker_of e) with
    | Returned _ => console st
    | Threw msg => (console st ++ [skipping (ticker_of e) msg])%list
    end.
Proof.
  unfold iteration, ticker_of.
  destruct (analyse_ i (ticker (mention e))); reflexivity.
Qed.

Lemma iteration_flags (n i : nat) (e : Ranked) (st : app) :
  loading (iteration_ n i e st) = loading st
  /\ error (iteration_ n i e st) = error st
  /\ trending (iteration_ n i e st) = trending st.
Proof.
  unfold iteration. destruct (analyse_ i (ticker (mention e))); auto.
Qed.

Lemma loop_flags (n : nat) (tickers : list Ranked) (i : nat) (st : app) :
  loading (loop_ n i tickers st) = loading st
  /\ error (loop_ n i tickers st) = error st
  /\ trending (loop_ n i tickers st) = trending st.
Proof.
  revert i st. induction tickers as [|e tickers IH]; intros i st; simpl; [auto|].
  destruct (IH (S i) (iteration_ n i e st)) as (-> & -> & ->).
  apply iteration_flags.
Qed.

Lemma loop_console (n : nat) (tickers : list Ranked) (i : nat) (st : app)
    (line : string) :
  In line (console (loop_ n i tickers st)) <->
  In line (console st)
  \/ exists j e msg, tickers !! j = Some e
                     /\ analyse_ (i + j) (ticker_of e) = Threw msg
                     /\ line = skipping (ticker_of e) msg.
Proof.
  revert i st. induction tickers as [|e tickers IH]; intros i st; simpl.
  - split; [auto|]. intros [H|(j & e & msg & H & _)]; [exact H|].
    destruct j; discriminate.
  - rewrite IH, iteration_console. split.
    + intros [H|(j & e' & msg & Hj & Ha & Hl)].
      * destruct (analyse_ i (ticker_of e)) as [rec|msg] eqn:Ha; [auto|].
        apply in_app_iff in H as [H|[<-|[]]]; [auto|].
        right. exists 0%nat, e, msg. now rewrite Nat.add_0_r.
      * right. exists (S j), e', msg. now rewrite Nat.add_succ_r.
    + intros [H|(j & e' & msg & Hj & Ha & Hl)].
      * left. destruct (analyse_ i (ticker_of e)); [exact H|].
        apply in_app_iff. now left.
      * destruct j as [|j]; simpl in Hj.
        -- injection Hj as <-. rewrite Nat.add_0_r in Ha. rewrite Ha.
           left. apply in_app_iff. right. now left.
        -- right. exists j, e', msg. now rewrite Nat.add_succ_r in Ha.
Qed.

Lemma loop_values (n : nat) (tickers : list Ranked) (i : nat) (st : app)
    (k : string) (v : Rec) :
  In (k, v) (stocks (loop_ n i tickers st)) ->
  In (k, v) (stocks st)
  \/ exists j e d, tickers !! j = Some e /\ k = ticker_of e
                   /\ provider (i + j) k = Returned (Some d)
                   /\ v = synthesize NumberToString k (i + j) d.
Proof.
  revert i st. induction tickers as [|e tickers IH]; intros i st; simpl; [auto|].
  intros H. apply IH in H as [H|(j & e' & d & Hj & Hk & Hp & Hv)].
  - rewrite iteration_stocks in H.
    destruct (analyse_ i (ticker (mention e))) as [rec|msg] eqn:Ha; [|auto].
    apply put_In in H as [[= -> ->]|H]; [|auto].
    apply analyse_inv in Ha as (d & Hp & ->).
    right. exists 0%nat, e, d. now rewrite Nat.add_0_r.
  - right. exists (S j), e', d. now rewrite Nat.add_succ_r.
Qed.

Lemma loop_keys_NoDup (n : nat) (tickers : list Ranked) (i : nat) (st : app) :
  List.NoDup (keys (stocks st)) -> List.NoDup (keys (stocks (loop_ n i tickers st))).
Proof.
  revert i st. induction tickers as [|e tickers IH]; intros i st Hst; simpl;
    [exact Hst|].
  apply IH. rewrite iteration_stocks.
  destruct (analyse_ i (ticker (mention e))); [now apply put_NoDup|exact Hst].
Qed.

Lemma loop_count (n : nat) (tickers : list Ranked) (i : nat) (st : app) :
  List.NoDup (map ticker_of tickers) ->
  (forall k, In k (keys (stocks st)) -> ~ In k (map ticker_of tickers)) ->
  (length (stocks (loop_ n i tickers st)) + length (console (loop_ n i tickers st))
   = length (stocks st) + length (console st) + length tickers)%nat.
Proof.
  revert i st. induction tickers as [|e tickers IH]; intros i st Hnd Hfresh; simpl;
    [lia|].
  apply List.NoDup_cons_iff in Hnd as [He Hnd].
  rewrite IH; [|exact Hnd|].
  - rewrite iteration_stocks, iteration_console. fold (ticker_of e).
    destruct (analyse_ i (ticker_of e)) as [rec|msg].
    + rewrite put_length; [lia|]. intros Hk. apply (Hfresh _ Hk). now left.
    + rewrite length_app. simpl. lia.
  - intros k Hk Hin. rewrite iteration_stocks in Hk. fold (ticker_of e) in Hk.
    destruct (analyse_ i (ticker_of e)) as [rec|msg].
    + apply keys_put in Hk as [->|Hk]; [contradiction|].
      apply (Hfresh _ Hk). now right.
    + apply (Hfresh _ Hk). now right.
Qed.

(** The state in which the loop of a run starts and ends. *)
Lemma runAnalysis_loop (trend : outcome (list Ranked)) (st : app) :
  attempted trend <> [] ->
  exists st0,
    stocks st0 = [] /\ console st0 = console st
    /\ loading st0 = true /\ error st0 = None /\ trending st0 = attempted trend
    /\ runAnalysis_ trend st
       = setLoading false
           (setProgress ""
              (loop_ (length (attempted trend)) 0 (attempted trend) st0)).
Proof.
  unfold runAnalysis. destruct trend as [data|msg]; simpl attempted; [|congruence].
  destruct (firstn 8 data) as [|e l] eqn:E; [congruence|]. intros _.
  exists (setTrending (e :: l)
            (setProgress "Scanning r/WallStreetBets for trending stocks..."
               (setTrending [] (setStocks [] (setError None (setLoading true st)))))).
  repeat split; reflexivity.
Qed.

Lemma attempted_length (trend : outcome (list Ranked)) :
  (length (attempted trend) <= 8)%nat.
Proof.
  destruct trend as [data|msg]; simpl; [|lia]. rewrite List.length_firstn. lia.
Qed.

(** A run whose trending request threw or gave no ticker analyses nothing. *)
Lemma runAnalysis_nothing (trend : outcome (list Ranked)) (st : app) :
  attempted trend = [] ->
  loading (runAnalysis_ trend st) = false
  /\ trending (runAnalysis_ trend st) = []
  /\ error (runAnalysis_ trend st) <> None
  /\ stocks (runAnalysis_ trend st) = []
  /\ console (runAnalysis_ trend st) = console st
  /\ forall msg, trend = Threw msg -> error (runAnalysis_ trend st) = Some msg.
Proof.
  intros Hnil. unfold runAnalysis. destruct trend as [data|msg]; simpl in Hnil.
  - rewrite Hnil. simpl. repeat split; discriminate.
  - simpl. repeat split; try discriminate. now intros ? [= ->].
Qed.

Lemma runAnalysis_flags (trend : outcome (list Ranked)) (st : app) :
  loading (runAnalysis_ trend st) = false
  /\ trending (runAnalysis_ trend st) = attempted trend
  /\ (error (runAnalysis_ trend st) = None <-> attempted trend <> []).
Proof.
  destruct (list_eq_nil_dec (attempted trend)) as [Hnil|Hne].
  - destruct (runAnalysis_nothing trend st Hnil) as (Hl & Ht & He & _).
    rewrite Hnil. repeat split; auto; congruence.
  - destruct (runAnalysis_loop trend st Hne) as (st0 & Hs0 & Hc0 & Hl0 & He0 & Ht0 & ->).
    destruct (loop_flags (length (attempted trend)) (attempted trend) 0 st0)
      as (Hl & He & Ht).
    cbn [setLoading setProgress loading trending error].
    rewrite He, Ht, He0, Ht0. repeat split; auto.
Qed.

Lemma runAnalysis_empty (data : list Ranked) (st : app) :
  firstn 8 data = [] ->
  error (runAnalysis_ (Returned data) st)
  = Some "No trending tickers found. Reddit may be rate-limiting — try again in a minute.".
Proof. intros H. unfold runAnalysis. now rewrite H. Qed.

(** X11: a run always ends with [loading] off and with the attempted tickers
    as the trending list; it leaves an error exactly when the trending
    request threw or gave no ticker, and then it has analysed nothing:
    no recommendation and no new console line. *)
Theorem run_ends_idle (trend : outcome (list Ranked)) (st : app) :
  let final := runAnalysis_ trend st in
  loading final = false
  /\ trending final = attempted trend
  /\ (error final = None <-> attempted trend <> [])
  /\ (forall msg, trend = Threw msg -> error final = Some msg)
  /\ (attempted trend = [] ->
      recommendations final = [] /\ console final = console st).
Proof.
  intros final. subst final.
  destruct (runAnalysis_flags trend st) as (Hl & Ht & He).
  repeat split; try tauto.
  - intros msg ->. now apply runAnalysis_nothing.
  - destruct (runAnalysis_nothing trend st H) as (_ & _ & _ & Hs & _).
    unfold recommendations. now rewrite Hs.
  - now apply runAnalysis_nothing.
Qed.

Lemma runAnalysis_console (trend : outcome (list Ranked)) (st : app) (line : string) :
  In line (console (runAnalysis_ trend st)) <->
  In line (console st)
  \/ exists j e msg, attempted trend !! j = Some e
                     /\ analyse_ j (ticker_of e) = Threw msg
                     /\ line = skipping (ticker_of e) msg.
Proof.
  destruct (list_eq_nil_dec (attempted trend)) as [Hnil|Hne].
  - destruct (runAnalysis_nothing trend st Hnil) as (_ & _ & _ & _ & -> & _).
    rewrite Hnil. split; [auto|]. intros [H|(j & e & msg & H & _)]; [exact H|].
    destruct j; discriminate.
  - destruct (runAnalysis_loop trend st Hne) as (st0 & _ & Hc0 & _ & _ & _ & ->).
    cbn [setLoading setProgress console]. rewrite loop_console, Hc0. reflexivity.
Qed.

Lemma runAnalysis_values (trend : outcome (list Ranked)) (st : app) (r : Rec) :
  In r (recommendations (runAnalysis_ trend st)) ->
  exists j e d, attempted trend !! j = Some e
                /\ provider j (ticker_of e) = Returned (Some d)
                /\ r = synthesize NumberToString (ticker_of e) j d.
Proof.
  unfold recommendations. rewrite sort_desc_In, in_map_iff.
  intros ([k v] & <- & Hin). simpl.
  destruct (list_eq_nil_dec (attempted trend)) as [Hnil|Hne].
  - destruct (runAnalysis_nothing trend st Hnil) as (_ & _ & _ & Hs & _).
    rewrite Hs in Hin. destruct Hin.
  - destruct (runAnalysis_loop trend st Hne) as (st0 & Hs0 & _ & _ & _ & _ & Hrun).
    rewrite Hrun in Hin. cbn [setLoading setProgress stocks] in Hin.
    apply loop_values in Hin as [Hin|(j & e & d & Hj & -> & Hp & ->)].
    + rewrite Hs0 in Hin. destruct Hin.
    + exists j, e, d. auto.
Qed.

Lemma runAnalysis_keys_NoDup (trend : outcome (list Ranked)) (st : app) :
  List.NoDup (keys (stocks (runAnalysis_ trend st))).
Proof.
  destruct (list_eq_nil_dec (attempted trend)) as [Hnil|Hne].
  - destruct (runAnalysis_nothing trend st Hnil) as (_ & _ & _ & -> & _). constructor.
  - destruct (runAnalysis_loop trend st Hne) as (st0 & Hs0 & _ & _ & _ & _ & ->).
    cbn [setLoading setProgress stocks]. apply loop_keys_NoDup. rewrite Hs0. constructor.
Qed.

Lemma runAnalysis_keyed (trend : outcome (list Ranked)) (st : app) :
  keyed (stocks (runAnalysis_ trend st)).
Proof.
  destruct (list_eq_nil_dec (attempted trend)) as [Hnil|Hne].
  - destruct (runAnalysis_nothing trend st Hnil) as (_ & _ & _ & -> & _). constructor.
  - destruct (runAnalysis_loop trend st Hne) as (st0 & Hs0 & _ & _ & _ & _ & ->).
    cbn [setLoading setProgress stocks]. apply loop_keyed. rewrite Hs0. constructor.
Qed.

Lemma runAnalysis_tickers_NoDup (trend : outcome (list Ranked)) (st : app) :
  List.NoDup (map rec_ticker (recommendations (runAnalysis_ trend st))).
Proof.
  unfold recommendations.
  eapply Permutation_NoDup;
    [symmetry; apply Permutation_map, sort_desc_perm|].
  rewrite keyed_tickers by apply runAnalysis_keyed. apply runAnalysis_keys_NoDup.
Qed.

Lemma runAnalysis_count (trend : outcome (list Ranked)) (st : app) :
  List.NoDup (map ticker_of (attempted trend)) ->
  (length (recommendations (runAnalysis_ trend st))
   + length (console (runAnalysis_ trend st))
   = length (console st) + length (attempted trend))%nat.
Proof.
  intros Hnd. unfold recommendations. rewrite sort_desc_length, length_map.
  destruct (list_eq_nil_dec (attempted trend)) as [Hnil|Hne].
  - destruct (runAnalysis_nothing trend st Hnil) as (_ & _ & _ & -> & -> & _).
    rewrite Hnil. simpl. lia.
  - destruct (runAnalysis_loop trend st Hne) as (st0 & Hs0 & Hc0 & _ & _ & _ & ->).
    cbn [setLoading setProgress stocks console].
    rewrite loop_count; [rewrite Hs0, Hc0; simpl; lia|exact Hnd|].
    rewrite Hs0. intros k [].
Qed.

(** With distinct tickers, a ticker whose analysis returned is recommended
    with the record made at its own index. *)
Lemma loop_keeps (n : nat) (tickers : list Ranked) (i : nat) (st : app)
    (j : nat) (e : Ranked) (rec : Rec) :
  List.NoDup (map ticker_of tickers) ->
  tickers !! j = Some e -> analyse_ (i + j) (ticker_of e) = Returned rec ->
  In (ticker_of e, rec) (stocks (loop_ n i tickers st)).
Proof.
  assert (Hstay : forall tickers i st k v,
             ~ In k (map ticker_of tickers) -> In (k, v) (stocks st) ->
             In (k, v) (stocks (loop_ n i tickers st))).
  { induction tickers0 as [|e0 l IH]; intros i0 st0 k v Hk Hin; simpl; [exact Hin|].
    apply IH; [intros H; apply Hk; now right|].
    rewrite iteration_stocks. fold (ticker_of e0).
    destruct (analyse_ i0 (ticker_of e0)); [|exact Hin].
    assert (Hne : k <> ticker_of e0) by (intros ->; apply Hk; now left).
    clear -Hin Hne. induction (stocks st0) as [|[k1 v1] m IHm]; [destruct Hin|].
    cbn [put]. destruct (String.eqb_spec (ticker_of e0) k1) as [Hk1|Hk1].
    - destruct Hin as [[= <- <-]|Hin]; [congruence|now right].
    - destruct Hin as [Hin|Hin]; [now left|right; now apply IHm]. }
  revert i st j. induction tickers as [|e0 tickers IH]; intros i st j Hnd Hj Ha;
    [destruct j; discriminate|].
  apply List.NoDup_cons_iff in Hnd as [He Hnd]. simpl.
  destruct j as [|j]; simpl in Hj.
  - injection Hj as ->. rewrite Nat.add_0_r in Ha.
    apply Hstay; [exact He|]. rewrite iteration_stocks. fold (ticker_of e).
    rewrite Ha. clear. induction (stocks st) as [|[k1 v1] m IHm]; cbn [put];
      [now left|].
    destruct (String.eqb_spec (ticker_of e) k1) as [<-|Hk1]; [now left|now right].
  - apply (IH (S i) _ j Hnd Hj). now rewrite Nat.add_succ_r in Ha.
Qed.

Lemma runAnalysis_keeps (trend : outcome (list Ranked)) (st : app)
    (j : nat) (e : Ranked) (rec : Rec) :
  List.NoDup (map ticker_of (attempted trend)) ->
  attempted trend !! j = Some e -> analyse_ j (ticker_of e) = Returned rec ->
  In rec (recommendations (runAnalysis_ trend st)).
Proof.
  intros Hnd Hj Ha. unfold recommendations. rewrite sort_desc_In, in_map_iff.
  exists (ticker_of e, rec). split; [reflexivity|].
  assert (Hne : attempted trend <> []) by (intros H; now rewrite H in Hj).
  destruct (runAnalysis_loop trend st Hne) as (st0 & _ & _ & _ & _ & _ & ->).
  cbn [setLoading setProgress stocks]. now apply loop_keeps with (j := j).
Qed.

End Run.

(** ** The run of [App] over the transport *)

Lemma firstn_nil_iff {A : Type} (n : nat) (l : list A) :
  firstn (S n) l = [] <-> l = [].
Proof. destruct l; simpl; split; congruence. Qed.

Lemma fetchTrending_NoDup (net : outcome reply) :
  List.NoDup (map ticker_of (attempted (fetchTrending net))).
Proof.
  assert (H : forall children,
             List.NoDup (map ticker_of (firstn 8 (rank (aggregate children))))).
  { intros children. rewrite <- firstn_map. apply NoDup_firstn, rank_NoDup. }
  unfold fetchTrending.
  destruct net as [[[] status [[| |l]|m]]|m]; simpl; try constructor; apply H.
Qed.

Lemma some_counted_dec (children : list (option Post)) :
  (forall post, In (Some post) children -> stickied post = false ->
                extractTickers (post_text post) = [])
  \/ exists post, In (Some post) children /\ stickied post = false
                  /\ extractTickers (post_text post) <> [].
Proof.
  induction children as [|child children IH]; [left; intros ? []|].
  destruct IH as [IH|(post & Hin & Hs & Hne)];
    [|right; exists post; repeat split; auto; now right].
  destruct child as [post|];
    [|left; intros post [Heq|Hin]; [discriminate|now apply IH]].
  destruct (stickied post) eqn:Es;
    [left; intros post' [[= <-]|Hin] Hs'; [congruence|now apply IH]|].
  destruct (list_eq_nil_dec (extractTickers (post_text post))) as [Hnil|Hne].
  - left. intros post' [[= <-]|Hin] Hs'; [exact Hnil|now apply IH].
  - right. exists post. repeat split; auto. now left.
Qed.

Lemma rank_nonempty_iff (children : list (option Post)) :
  rank (aggregate children) <> [] <->
  exists post, In (Some post) children /\ stickied post = false
               /\ extractTickers (post_text post) <> [].
Proof.
  rewrite rank_empty_iff. split.
  - intros Hne. destruct (some_counted_dec children) as [H|H]; [contradiction|exact H].
  - intros (post & Hin & Hs & Hne) H. apply Hne. now apply H.
Qed.

(** X12: a run of [App] ends without an error exactly when the listing
    request resolved with a success status and a body whose children are an
    array holding a post that is not pinned and names a ticker. *)
Theorem run_succeeds_iff (NumberToString : Q -> string) (listing : fetched reply)
    (stock : nat -> string -> fetched stock_reply) (st : app) :
  error (App_runAnalysis NumberToString listing stock st) = None <->
  exists res children post,
    listing = Resolved res /\ ok res = true
    /\ json res = Returned (Children children)
    /\ In (Some post) children /\ stickied post = false
    /\ extractTickers (post_text post) <> [].
Proof.
  unfold App_runAnalysis.
  match goal with |- error (runAnalysis ?n ?f ?t ?s) = None <-> _ =>
    destruct (runAnalysis_flags n f t s) as (_ & _ & ->) end.
  split.
  - intros Hne. destruct listing as [res|name msg].
    + cbn [fetchWithTimeout] in Hne. unfold fetchTrending in Hne. simpl in Hne.
      destruct (ok res) eqn:Hok; [|now destruct Hne].
      destruct (json res) as [[| |children]|m] eqn:Hj; simpl in Hne;
        try now destruct Hne.
      rewrite firstn_nil_iff, rank_nonempty_iff in Hne.
      destruct Hne as (post & Hin & Hs & Hx). exists res, children, post. auto 7.
    + cbn [fetchWithTimeout] in Hne.
      destruct (String.eqb name "AbortError"); now destruct Hne.
  - intros (res & children & post & -> & Hok & Hj & Hin & Hs & Hx).
    cbn [fetchWithTimeout]. unfold fetchTrending. simpl. rewrite Hok, Hj. simpl.
    rewrite firstn_nil_iff, rank_nonempty_iff. eauto.
Qed.

(** X13: the error that [App] shows for each way the listing request can
    fail: the time-out text for an aborted request, the rejection's own
    message otherwise, a fixed text for a non-success status, the parser's
    or the iteration's message for a bad body, and the rate-limit hint when
    no ticker was found; in each case nothing is analysed. *)
Theorem listing_failure_surfaces (NumberToString : Q -> string)
    (listing : fetched reply) (stock : nat -> string -> fetched stock_reply)
    (st : app) :
  let final := App_runAnalysis NumberToString listing stock st in
  match listing with
  | Rejected name msg =>
      error final
      = Some (if String.eqb name "AbortError"
              then "Request timed out — the server may be starting up. Try again."
              else msg)
  | Resolved res =>
      if ok res then
        match json res with
        | Threw msg => error final = Some msg
        | Returned NotIterable => error final = Some "children is not iterable"
        | Returned NoChildren =>
            error final
            = Some "No trending tickers found. Reddit may be rate-limiting — try again in a minute."
        | Returned (Children children) =>
            rank (aggregate children) = [] ->
            error final
            = Some "No trending tickers found. Reddit may be rate-limiting — try again in a minute."
        end
      else error final = Some "Reddit returned an error — try again in a moment"
  end
  /\ (error final <> None ->
      recommendations final = [] /\ trending final = []
      /\ console final = console st /\ loading final = false).
Proof.
  intros final. subst final. unfold App_runAnalysis. split.
  - destruct listing as [res|name msg]; cbn [fetchWithTimeout].
    + unfold fetchTrending. simpl.
      destruct (ok res); [|reflexivity].
      destruct (json res) as [[| |children]|m]; simpl; try reflexivity.
      intros Hnil. apply runAnalysis_empty. now rewrite Hnil.
    + destruct (String.eqb name "AbortError"); reflexivity.
  - intros Herr.
    match goal with |- context [runAnalysis ?n ?f ?t ?s] =>
      destruct (runAnalysis_flags n f t s) as (_ & _ & He);
      assert (Hnil : attempted t = [])
        by (destruct (list_eq_nil_dec (attempted t)) as [H|H];
            [exact H|now apply He in H]);
      destruct (runAnalysis_nothing n f t s Hnil) as (Hl & Ht & _ & Hs & Hc & _)
    end.
    unfold recommendations. rewrite Hs. auto.
Qed.

(** X14: what becomes of each ticker of the trending list of a run of
    [App]: a time-out, a rejection, a non-success reply, a body that does
    not parse and a [null] body each leave a console line that names the
    ticker and the message; a parsed bundle leaves the recommendation that
    the synthesis makes of it at the ticker's own index. *)
Theorem ticker_outcome (NumberToString : Q -> string) (listing : fetched reply)
    (stock : nat -> string -> fetched stock_reply) (st : app)
    (j : nat) (e : Ranked) :
  let final := App_runAnalysis NumberToString listing stock st in
  trending final !! j = Some e ->
  let tk := ticker_of e in
  match stock j tk with
  | Rejected name msg =>
      In (skipping tk
            (if String.eqb name "AbortError"
             then "Request timed out — the server may be starting up. Try again."
             else msg))
         (console final)
  | Resolved res =>
      if stock_ok res then
        match stock_json res with
        | Threw msg => In (skipping tk msg) (console final)
        | Returned None =>
            In (skipping tk "Cannot read properties of null (reading 'fundamental')")
               (console final)
        | Returned (Some d) =>
            In (synthesize NumberToString tk j d) (recommendations final)
        end
      else In (skipping tk ("Failed to analyze " ++ tk)) (console final)
  end.
Proof.
  intros final Hj tk. subst final tk. unfold App_runAnalysis in *.
  set (provider := fun i tk => fetchStockDetail tk (stock i tk)) in *.
  set (trend := fetchTrending (fetchWithTimeout listing)) in *.
  destruct (runAnalysis_flags NumberToString provider trend st) as (_ & Ht & _).
  rewrite Ht in Hj.
  assert (Hlog : forall msg,
             analyse NumberToString provider j (ticker_of e) = Threw msg ->
             In (skipping (ticker_of e) msg)
                (console (runAnalysis NumberToString provider trend st))).
  { intros msg Ha. apply runAnalysis_console. right. exists j, e, msg. auto. }
  assert (Hrec : forall rec,
             analyse NumberToString provider j (ticker_of e) = Returned rec ->
             In rec (recommendations (runAnalysis NumberToString provider trend st))).
  { intros rec Ha. apply runAnalysis_keeps with (j := j) (e := e); auto.
    apply fetchTrending_NoDup. }
  unfold analyse, provider, fetchStockDetail in Hlog, Hrec.
  destruct (stock j (ticker_of e)) as [res|name msg]; cbn [fetchWithTimeout] in *.
  - simpl in Hlog, Hrec. destruct (stock_ok res); simpl in Hlog, Hrec; [|now apply Hlog].
    destruct (stock_json res) as [[d|]|msg]; simpl in Hlog, Hrec; auto.
  - destruct (String.eqb name "AbortError"); simpl in Hlog; now apply Hlog.
Qed.

Lemma ticker_outcome_witness :
  let final := App_runAnalysis no_exponent sample_listing sample_stock initial in
  In (skipping "GME" "Request timed out — the server may be starting up. Try again.")
     (console final).
Proof.
  apply (ticker_outcome no_exponent sample_listing sample_stock initial 0 sample_gme).
  vm_compute. reflexivity.
Defined.

(** X15: a run of [App] accounts for every ticker of its trending list, of
    which there are at most 8: the recommendations and the console lines
    that the run adds are together as many as the trending tickers. *)
Theorem run_accounts_for_every_ticker (NumberToString : Q -> string)
    (listing : fetched reply) (stock : nat -> string -> fetched stock_reply)
    (st : app) :
  let final := App_runAnalysis NumberToString listing stock st in
  (length (recommendations final) + length (console final)
   = length (console st) + length (trending final))%nat
  /\ (length (trending final) <= 8)%nat.
Proof.
  intros final. subst final. unfold App_runAnalysis.
  match goal with |- context [runAnalysis ?n ?f ?t ?s] =>
    destruct (runAnalysis_flags n f t s) as (_ & -> & _);
    split; [apply runAnalysis_count, fetchTrending_NoDup|apply attempted_length]
  end.
Qed.

(** X16: nothing that a run leaves behind is unaccounted for: every
    recommendation is the synthesis of a bundle that the provider returned
    for a ticker of the attempted list, filed under that ticker with the
    rank of its position, which is between 1 and 8; every console line that
    was not there before is the skip line of an attempted ticker whose
    analysis threw. *)
Theorem run_leaves_only_attempted (NumberToString : Q -> string)
    (provider : nat -> string -> outcome (option Detail))
    (trend : outcome (list Ranked)) (st : app) :
  let final := runAnalysis NumberToString provider trend st in
  (forall r, In r (recommendations final) ->
     exists j e d,
       attempted trend !! j = Some e
       /\ provider j (ticker_of e) = Returned (Some d)
       /\ r = synthesize NumberToString (ticker_of e) j d
       /\ rec_ticker r = ticker_of e
       /\ wsb_mention_rank r = Z.of_nat j + 1
       /\ 1 <= wsb_mention_rank r <= 8)
  /\ (forall line, In line (console final) ->
        In line (console st)
        \/ exists j e msg,
             attempted trend !! j = Some e
             /\ analyse NumberToString provider j (ticker_of e) = Threw msg
             /\ line = skipping (ticker_of e) msg).
Proof.
  intros final. subst final. split.
  - intros r Hr. apply runAnalysis_values in Hr as (j & e & d & Hj & Hp & ->).
    exists j, e, d. repeat split; auto; cbn [synthesize wsb_mention_rank]; [lia|].
    apply lookup_lt_Some in Hj. pose proof (attempted_length trend). lia.
  - intros line. apply runAnalysis_console.
Qed.

Lemma find_by_ticker (recs : list Rec) (r : Rec) :
  List.NoDup (map rec_ticker recs) -> In r recs ->
  find (fun x => String.eqb (rec_ticker x) (rec_ticker r)) recs = Some r.
Proof.
  induction recs as [|x recs IH]; [intros _ []|]. cbn [map find].
  intros Hnd Hin. apply List.NoDup_cons_iff in Hnd as [Hx Hnd].
  destruct (String.eqb_spec (rec_ticker x) (rec_ticker r)) as [Heq|Hne].
  - destruct Hin as [->|Hin]; [reflexivity|].
    destruct Hx. rewrite Heq. now apply in_map.
  - destruct Hin as [->|Hin]; [congruence|now apply IH].
Qed.

Lemma find_by_ticker_none (recs : list Rec) (t : string) :
  ~ In t (map rec_ticker recs) ->
  find (fun x => String.eqb (rec_ticker x) t) recs = None.
Proof.
  induction recs as [|x recs IH]; [reflexivity|]. cbn [map find]. intros Hin.
  destruct (String.eqb_spec (rec_ticker x) t) as [Heq|Hne].
  - destruct Hin. now left.
  - apply IH. intros H. apply Hin. now right.
Qed.

(** X17: in every state, the recommendations are the stored records in
    descending order of score, and records of equal score keep the order in
    which their tickers were first stored. *)
Theorem recommendations_sorted (st : app) (z : Rec) :
  StronglySorted (fun a b => rec_score b <= rec_score a) (recommendations st)
  /\ Permutation (recommendations st) (map snd (stocks st))
  /\ List.filter (tie by_score z) (recommendations st)
     = List.filter (tie by_score z) (map snd (stocks st)).
Proof.
  unfold recommendations. split; [|split].
  - eapply sorted_impl;
      [|apply (sort_desc_sorted by_score by_score_total by_score_trans)].
    intros a b H. cbv beta in H. unfold by_score in H. now apply Z.leb_le.
  - apply sort_desc_perm.
  - apply sort_desc_tie, by_score_trans.
Qed.

(** X18: the keys under which [App] renders the trending tickers and
    [Dashboard] renders the cards are pairwise distinct after every run. *)
Theorem render_keys_distinct (NumberToString : Q -> string) (listing : fetched reply)
    (stock : nat -> string -> fetched stock_reply) (st : app) :
  let final := App_runAnalysis NumberToString listing stock st in
  List.NoDup (map ticker_of (trending final))
  /\ List.NoDup (map rec_ticker (Dashboard.sorted (recommendations final))).
Proof.
  intros final. subst final. unfold App_runAnalysis. split.
  - match goal with |- context [runAnalysis ?n ?f ?t ?s] =>
      destruct (runAnalysis_flags n f t s) as (_ & -> & _) end.
    apply fetchTrending_NoDup.
  - unfold Dashboard.sorted.
    eapply Permutation_NoDup;
      [symmetry; apply Permutation_map, sort_desc_perm|].
    apply runAnalysis_tickers_NoDup.
Qed.

(** X19: the second sort, which [Dashboard] applies to the recommendations
    that [App] hands it, changes nothing. *)
Theorem dashboard_sort_is_identity (st : app) :
  Dashboard.sorted (recommendations st) = recommendations st.
Proof.
  unfold Dashboard.sorted, recommendations.
  apply (sort_desc_sorted_id by_score).
  apply (sort_desc_sorted by_score by_score_total by_score_trans).
Qed.

(** X20: after a run, a click on the card of a recommendation that is not
    the selected one opens the report of that very recommendation, and a
    click on the selected card closes the report. *)
Theorem click_selects (NumberToString : Q -> string)
    (provider : nat -> string -> outcome (option Detail))
    (trend : outcome (list Ranked)) (st : app) (r : Rec)
    (selectedTicker : option string) :
  let recs := recommendations (runAnalysis NumberToString provider trend st) in
  In r recs ->
  (selectedTicker <> Some (rec_ticker r) ->
   Dashboard.selected recs (Dashboard.click selectedTicker (rec_ticker r)) = Some r)
  /\ (selectedTicker = Some (rec_ticker r) ->
      Dashboard.selected recs selectedTicker = Some r
      /\ Dashboard.selected recs (Dashboard.click selectedTicker (rec_ticker r)) = None).
Proof.
  intros recs Hin.
  assert (Hfind : Dashboard.selected recs (Some (rec_ticker r)) = Some r).
  { apply find_by_ticker; [apply runAnalysis_tickers_NoDup|exact Hin]. }
  split.
  - intros Hsel. assert (Hc : Dashboard.click selectedTicker (rec_ticker r)
                              = Some (rec_ticker r)).
    { unfold Dashboard.click. destruct selectedTicker as [t|]; [|reflexivity].
      destruct (String.eqb_spec (rec_ticker r) t) as [Heq|Hne]; [congruence|reflexivity]. }
    now rewrite Hc.
  - intros ->. split; [exact Hfind|].
    unfold Dashboard.click. now rewrite String.eqb_refl.
Qed.

Lemma click_selects_witness :
  let recs := recommendations (runAnalysis no_exponent sample_provider sample_trend initial) in
  let r := synthesize no_exponent "NVDA" 2 empty_detail in
  Dashboard.selected recs (Dashboard.click (Some "GME") "NVDA") = Some r.
Proof.
  intros recs r.
  apply (click_selects no_exponent sample_provider sample_trend initial r (Some "GME")).
  - vm_compute. left. reflexivity.
  - discriminate.
Defined.

(** X21: the edge function and the client's own [fetchTrending] agree: on
    the same upstream reply the handler's body lists what [fetchTrending]
    returns, with no error, and where [fetchTrending] throws the body lists
    nothing and carries an error, which is the thrown message except for a
    non-success reply, where the handler tells the status. *)
Theorem handler_agrees_with_fetchTrending (net : outcome reply) :
  match fetchTrending net with
  | Returned tickers =>
      handler net = {| resp_status := 200; resp_tickers := tickers; resp_error := None |}
  | Threw msg =>
      match net with
      | Returned res =>
          if ok res then handler net = error_response msg
          else handler net = error_response ("Reddit returned " ++ show_Z (status res))
               /\ msg = "Reddit returned an error — try again in a moment"
      | Threw _ => handler net = error_response msg
      end
  end.
Proof.
  unfold fetchTrending, handler, handler_try, error_response.
  destruct net as [[[] status [[| |l]|m]]|m]; simpl; auto.
Qed.

(** ** What the cards show *)

Lemma signal_of_monotone (c1 c2 : Z) :
  c1 <= c2 -> signal_rank (signal_of c1) <= signal_rank (signal_of c2).
Proof.
  intros H. unfold signal_of.
  destruct (Z.geb_spec c1 75), (Z.geb_spec c2 75), (Z.geb_spec c1 60),
    (Z.geb_spec c2 60), (Z.leb_spec c1 25), (Z.leb_spec c2 25),
    (Z.leb_spec c1 40), (Z.leb_spec c2 40); simpl; lia.
Qed.

Lemma Math_round_monotone (x y : Q) : (x <= y)%Q -> Math_round x <= Math_round y.
Proof. intros H. unfold Math_round. apply Qfloor_resp_le. lra. Qed.

(** X22: the colour of the score bar that [StockCard] and [AnalysisReport]
    draw for a synthesized recommendation goes with its signal: green for
    strong buy, red for strong sell, yellow for hold; a buy is green from
    70 and yellow below, a sell is red except at 40, where it is yellow. *)
Theorem bar_colour_matches_signal (NumberToString : Q -> string) (tk : string)
    (i : nat) (d : Detail) :
  let r := synthesize NumberToString tk i d in
  score_colour (rec_score r)
  = match signal r with
    | strong_buy => "#00c853"
    | buy => if rec_score r >=? 70 then "#00c853" else "#ffd600"
    | hold => "#ffd600"
    | sell => if rec_score r =? 40 then "#ffd600" else "#ff1744"
    | strong_sell => "#ff1744"
    end.
Proof.
  intros r. subst r. cbn [synthesize rec_score signal].
  generalize (composite (default no_fundamental (fundamental d))
                (default no_technical (technical d)) (default no_risk (risk d))).
  intros c. unfold score_colour, signal_of.
  destruct (Z.geb_spec c 75), (Z.geb_spec c 70), (Z.geb_spec c 60),
    (Z.geb_spec c 40), (Z.leb_spec c 25), (Z.leb_spec c 40), (Z.eqb_spec c 40);
    try reflexivity; lia.
Qed.

Lemma append_not_empty (a b : string) : b <> "" -> a ++ b <> "".
Proof.
  intros Hb H. apply (f_equal String.length) in H. rewrite length_append in H.
  destruct b; [congruence|]. simpl in H. lia.
Qed.

Lemma str_or_not_empty (a fallback : string) : fallback <> "" -> str_or a fallback <> "".
Proof. unfold str_or. destruct (String.eqb_spec a ""); congruence. Qed.

Lemma str_or_occurs (a fallback w : string) : w <> "" -> occurs w a -> str_or a fallback = a.
Proof.
  intros Hw (pre & post & ->). unfold str_or.
  destruct (String.eqb_spec (pre ++ w ++ post) "") as [E|E]; [|reflexivity].
  apply (f_equal String.length) in E. rewrite !length_append in E.
  destruct w; [congruence|]. simpl in E. lia.
Qed.

(** X23: no text of a synthesized recommendation is empty: the thesis begins
    with the ticker and a colon, so the stand-in text of [StockCard] is
    never shown, and the bull and the bear case are never blank. *)
Theorem texts_never_empty (NumberToString : Q -> string) (tk : string) (i : nat)
    (d : Detail) :
  let r := synthesize NumberToString tk i d in
  (exists text, investment_thesis r = tk ++ ": " ++ text)
  /\ StockCard.thesis_snippet r = investment_thesis r
  /\ bull_case r <> "" /\ bear_case r <> "".
Proof.
  intros r. subst r. cbn [synthesize investment_thesis bull_case bear_case].
  unfold StockCard.thesis_snippet. cbn [synthesize investment_thesis].
  assert (Ht : exists text,
             thesis_of tk
               (thesis_parts NumberToString (default no_fundamental (fundamental d))
                  (default no_technical (technical d)) (default no_risk (risk d)))
             = tk ++ ": " ++ text).
  { unfold thesis_of. destruct (0 <? length _)%nat; eauto. }
  split; [exact Ht|]. destruct Ht as (text & ->).
  split; [|split; apply str_or_not_empty; discriminate].
  unfold str_or. destruct (String.eqb_spec (tk ++ ": " ++ text) "") as [E|E];
    [|reflexivity].
  apply append_not_empty in E; [destruct E|]. discriminate.
Qed.


Lemma and_gt_spec (q c : Q) : (c < q)%Q -> (0 <= c)%Q -> and_gt (Some q) c = true.
Proof.
  intros Hc H0. unfold and_gt, Qltb. apply andb_true_iff. split; apply negb_true_iff.
  - destruct (Qeq_bool q 0) eqn:E; [|reflexivity].
    apply Qeq_bool_iff in E. lra.
  - destruct (Qle_bool q c) eqn:E; [|reflexivity].
    apply Qle_bool_iff in E. lra.
Qed.


(** X25: a bundle whose three scores, as the composite reads them, are no
    lower than those of another gets a composite that is no lower and a
    signal that is no more bearish. *)
Theorem better_scores_never_hurt (NumberToString : Q -> string) (tk1 tk2 : string)
    (i1 i2 : nat) (d1 d2 : Detail) :
  no_worse d1 d2 ->
  let r1 := synthesize NumberToString tk1 i1 d1 in
  let r2 := synthesize NumberToString tk2 i2 d2 in
  rec_score r1 <= rec_score r2
  /\ signal_rank (signal r1) <= signal_rank (signal r2).
Proof.
  intros (Hf & Ht & Hr) r1 r2. subst r1 r2. cbn [synthesize rec_score signal].
  assert (H : composite (default no_fundamental (fundamental d1))
                (default no_technical (technical d1)) (default no_risk (risk d1))
              <= composite (default no_fundamental (fundamental d2))
                   (default no_technical (technical d2)) (default no_risk (risk d2))).
  { unfold composite. apply Math_round_monotone. lra. }
  split; [exact H|now apply signal_of_monotone].
Qed.

Lemma better_scores_never_hurt_witness :
  rec_score (synthesize no_exponent "AMC" 1 empty_detail)
  <= rec_score (synthesize no_exponent "GME" 0 sample_strong)
  /\ signal_rank (signal (synthesize no_exponent "AMC" 1 empty_detail))
     <= signal_rank (signal (synthesize no_exponent "GME" 0 sample_strong)).
Proof.
  apply (better_scores_never_hurt no_exponent "AMC" "GME" 1 0 empty_detail sample_strong).
  unfold no_worse. repeat split; vm_compute; discriminate.
Defined.

(** X26: a high valuation and a high volatility are each told in every
    place that reports them: a P/E above 50 raises the flag "Extreme
    valuation", and the bear case and the thesis quote it; a volatility
    above 0.5 raises the flag "High volatility" and the bear case says
    "Very volatile". *)
Theorem valuation_and_volatility_echoed (NumberToString : Q -> string) (tk : string)
    (i : nat) (d : Detail) :
  let rec := synthesize NumberToString tk i d in
  (forall pe, trailing_pe (rec_fundamental rec) = Some pe -> (50 < pe)%Q ->
     In "Extreme valuation" (risk_flags rec)
     /\ occurs ("Expensive (P/E " ++ toFixed NumberToString 0 pe ++ ")") (bear_case rec)
     /\ occurs ("P/E " ++ toFixed NumberToString 1 pe) (investment_thesis rec))
  /\ (forall v, volatility_annual (rec_risk rec) = Some v -> (0.5 < v)%Q ->
        In "High volatility" (risk_flags rec)
        /\ occurs "Very volatile" (bear_case rec)).
Proof.
  intros rec. subst rec.
  cbn [synthesize risk_flags bear_case investment_thesis rec_fundamental rec_risk].
  generalize (default no_fundamental (fundamental d))
    (default no_technical (technical d)) (default no_risk (risk d)).
  intros f t r.
  assert (Hbear : forall c, c <> "" -> In c (bear_of NumberToString f t r) ->
            occurs c (str_or (join ". " (bear_of NumberToString f t r))
                        "Limited bearish signals.")).
  { intros c Hc Hin. apply (join_In ". ") in Hin.
    rewrite (str_or_occurs _ _ c Hc Hin). exact Hin. }
  split.
  - intros pe Hpe H50.
    assert (G50 : and_gt (Some pe) 50 = true) by (apply and_gt_spec; lra).
    assert (G40 : and_gt (Some pe) 40 = true) by (apply and_gt_spec; lra).
    assert (Gt : truthy (Some pe) = true).
    { unfold truthy. apply negb_true_iff.
      destruct (Qeq_bool pe 0) eqn:E; [|reflexivity]. apply Qeq_bool_iff in E. lra. }
    split; [|split].
    + unfold flags_of, push. rewrite Hpe, G50.
      destruct (and_gt (debt_to_equity f) 3), (and_gt (volatility_annual r) 0.5);
        destruct (max_drawdown r) as [dd|]; try destruct (and_lt (Some dd) (-0.3));
        cbn [List.app In]; auto.
    + apply Hbear; [discriminate|]. unfold bear_of, push. rewrite Hpe, G40.
      destruct (is_str (trend_signal t) "bearish"), (and_gt (volatility_annual r) 0.5);
        cbn [List.app In]; auto.
    + assert (Hin : In ("P/E " ++ toFixed NumberToString 1 pe)
                      (thesis_parts NumberToString f t r)).
      { unfold thesis_parts, push. rewrite Hpe, Gt.
        destruct (revenue_growth_yoy f), (sharpe_ratio r);
          destruct (trend_signal t) as [tr|]; try destruct (truthy_str (Some tr));
          cbn [List.app In]; auto. }
      unfold thesis_of.
      destruct (thesis_parts NumberToString f t r) as [|p ps]; [destruct Hin|].
      cbn [length Nat.ltb Nat.leb].
      destruct (join_In ", " _ (p :: ps) Hin) as (pre & post & E).
      exists (tk ++ ": " ++ pre), (post ++ ".").
      now rewrite E, !append_assoc.
  - intros v Hv H5.
    assert (G : and_gt (Some v) 0.5 = true) by (apply and_gt_spec; lra).
    split.
    + unfold flags_of, push. rewrite Hv, G.
      destruct (and_gt (trailing_pe f) 50), (and_gt (debt_to_equity f) 3);
        destruct (max_drawdown r) as [dd|]; try destruct (and_lt (Some dd) (-0.3));
        cbn [List.app In]; auto 6.
    + apply Hbear; [discriminate|]. unfold bear_of, push. rewrite Hv, G.
      destruct (trailing_pe f) as [pe|]; try destruct (and_gt (Some pe) 40);
        destruct (is_str (trend_signal t) "bearish"); cbn [List.app In]; auto.
Qed.
